(** * Superstore dashboard: the aggregation code of [app.py]

    A shallow embedding of the data transformations of the Streamlit script
    [src/app.py] (KPIs, monthly trends, year filter, group summaries, forecast
    table, cluster summary) together with the pandas operations they call.

    Conventions.
    - A cell of a column is an [option]: [None] is pandas' missing value
      (NaN / NaT), which [read_csv] produces for an empty field.
    - A [float64] value is the rational number it denotes: a [Q] that has
      at most 53 significant bits. Every [float64] operation rounds its
      exact result to the nearest such number, halves going to the even
      mantissa ([pd.round64]). The infinities are not values of [Q]: the
      embedding follows the code as long as no result reaches 2^1024.
    - An [int64] value is an integer [Z]; [int64] sums wrap around
      ([pd.wrap64]).
    - [Sales], [Profit] and [Discount] are [float64] columns; [Quantity] is
      [int64], or [float64] when one of its cells is missing.
    - Text is [string]: the files are decoded as ISO-8859-1, one byte per
      code point, so the byte-wise lexicographic order of [String.compare] is
      Python's order on [str]. *)

From Stdlib Require Import Ascii QArith Qround Qabs Qpower Lqa OrderedTypeEx.
From Stdlib Require Import DecimalString DecimalN DecimalZ.
From stdpp Require Import base list list_numbers strings gmap sorting.

Local Open Scope Z_scope.

(** ** Ordered keys *)

(** Group keys are compared with Python's [<=]; [Ord] carries the relation
    and its decision procedure, [OrdLaws] (below) the order axioms. *)
Class Ord (K : Type) := {
  key_le : relation K;
  key_le_dec :: RelDecision key_le
}.

Definition key_lt {K} `{Ord K} : relation K := fun x y => key_le x y ∧ x ≠ y.

#[global] Instance Z_Ord : Ord Z := {| key_le := Z.le |}.

#[global] Instance string_Ord : Ord string :=
  {| key_le := fun s1 s2 => String.leb s1 s2 = true;
     key_le_dec := fun s1 s2 => decide (String.leb s1 s2 = true) |}.

(** Python compares tuples lexicographically. *)
Definition prod_le {A B} `{Ord A, Ord B} : relation (A * B) :=
  fun p q => key_lt p.1 q.1 ∨ (p.1 = q.1 ∧ key_le p.2 q.2).

#[global] Instance prod_le_dec {A B} `{EqDecision A, Ord A, Ord B} :
  RelDecision (@prod_le A B _ _).
Proof. intros p q. unfold prod_le, key_lt. apply _. Defined.

#[global] Instance prod_Ord {A B} `{EqDecision A, Ord A, Ord B} : Ord (A * B) :=
  {| key_le := prod_le |}.

(** ** Timestamps *)

(** A [datetime64] value at day resolution, as its calendar fields. *)
Record Timestamp := mkTimestamp { year : Z; month : Z; day : Z }.

#[global] Instance Timestamp_eq_dec : EqDecision Timestamp.
Proof. solve_decision. Defined.

Definition Timestamp_key (t : Timestamp) : Z * (Z * Z) := (year t, (month t, day t)).

#[global] Instance Timestamp_Ord : Ord Timestamp :=
  {| key_le := fun s t => key_le (Timestamp_key s) (Timestamp_key t);
     key_le_dec := fun s t => decide (key_le (Timestamp_key s) (Timestamp_key t)) |}.

(** ** The pandas operations used by the script *)

Module pd.

(** A column: one cell per row, [None] for NaN / NaT. *)
Definition Series (A : Type) := list (option A).

Definition dropna {A} (s : Series A) : list A := omap id s.

(** *** Numbers *)

(** [int64] arithmetic keeps the low 64 bits of a result. *)
Definition wrap64 (z : Z) : Z := (z + 2 ^ 63) `mod` 2 ^ 64 - 2 ^ 63.

(** [rint]: the nearest integer, halves going to the even neighbour. *)
Definition rint (x : Q) : Z :=
  let f := Qfloor x in
  match (x - inject_Z f ?= 1 # 2)%Q with
  | Lt => f
  | Gt => f + 1
  | Eq => if Z.even f then f else f + 1
  end.

(** The binary exponent of a non-zero [x]: the [e] with
    [2 ^ e <= |x| < 2 ^ (e + 1)]. The difference of the bit lengths of
    numerator and denominator is that exponent or one more. *)
Definition ilog2 (x : Q) : Z :=
  let k := Z.log2 (Z.abs (Qnum x)) - Z.log2 (Z.pos (Qden x)) in
  if Qle_bool (2 ^ k) (Qabs x) then k else k - 1.

(** The double nearest to [x], halves going to the even mantissa: a
    multiple of [2 ^ e] where [e] leaves 53 significant bits and is at
    least -1074, the exponent of the subnormal numbers. The result is in
    lowest terms. *)
Definition round64 (x : Q) : Q :=
  let x := Qred x in
  if Qeq_bool x 0 then 0%Q
  else let e := Z.max (ilog2 x - 52) (-1074) in
       Qred (inject_Z (rint (x / 2 ^ e)) * 2 ^ e).

(** The [float64] operations: the exact result, rounded. *)
Definition f64_add (a b : Q) : Q := round64 (a + b).
Definition f64_sub (a b : Q) : Q := round64 (a - b).
Definition f64_mul (a b : Q) : Q := round64 (a * b).
Definition f64_div (a b : Q) : Q := round64 (a / b).

(** [astype('float64')] of an integer. *)
Definition astype_float64 (z : Z) : Q := round64 (inject_Z z).

(** *** Sums *)

(** numpy adds a [float64] array pairwise. Fewer than 8 numbers are added
    one after the other. Up to 128 numbers are added in 8 interleaved
    accumulators, which start as the first 8 numbers, take 8 more numbers
    per iteration and are combined as a balanced tree, before the numbers
    that do not fill a group of 8 are added one after the other. A longer
    array is cut at a multiple of 8 near its middle and the sums of the
    two parts are added. *)
Definition tree8 (r : list Q) : Q :=
  match r with
  | [r0; r1; r2; r3; r4; r5; r6; r7] =>
      f64_add (f64_add (f64_add r0 r1) (f64_add r2 r3))
              (f64_add (f64_add r4 r5) (f64_add r6 r7))
  | _ => 0%Q
  end.

Fixpoint sum_unrolled (r l : list Q) (iterations : nat) : Q :=
  match iterations with
  | S i => sum_unrolled (zip_with f64_add r (take 8 l)) (drop 8 l) i
  | O => fold_left f64_add l (tree8 r)
  end.

(** [fuel] bounds the depth of the recursion; the length of the array is
    enough. *)
Fixpoint pairwise_sum (fuel : nat) (l : list Q) : Q :=
  let n := length l in
  if decide (n < 8)%nat then fold_left f64_add l 0%Q
  else if decide (n ≤ 128)%nat then sum_unrolled (take 8 l) (drop 8 l) (n / 8 - 1)
  else match fuel with
       | O => 0%Q
       | S fuel =>
           let n2 := (n / 2 - (n / 2) `mod` 8)%nat in
           f64_add (pairwise_sum fuel (take n2 l)) (pairwise_sum fuel (drop n2 l))
       end.

(** [Series.sum()] of a [float64] column with the default [skipna=True]:
    pandas puts 0 in place of the missing cells and lets numpy add the
    array to the initial value 0. *)
Definition sum (s : Series Q) : Q :=
  let values := default 0%Q <$> (s : list (option Q)) in
  f64_add 0 (pairwise_sum (length values) values).

(** [Series.sum()] of an integer column. With every cell present the
    column is [int64] and the sum wraps. With a missing cell the column is
    [float64] and is added as such; the sum, a double whose value is an
    integer, is given as that integer. *)
Definition sum_int (s : Series Z) : Z :=
  if decide (None ∈ s)
  then Qfloor (sum ((λ c : option Z, astype_float64 <$> c) <$> (s : list (option Z))))
  else fold_left (λ acc c, wrap64 (acc + default 0 c)) s 0.

(** The sum of one group in [groupby(...).sum()]: pandas goes through the
    rows of the group in frame order with Kahan's compensated summation,
    skipping the missing cells. The state is the running sum and the
    compensation. *)
Definition kahan_add (st : Q * Q) (val : Q) : Q * Q :=
  let y := f64_sub val st.2 in
  let t := f64_add st.1 y in
  (t, f64_sub (f64_sub t st.1) y).

Definition group_sum (s : Series Q) : Q :=
  (fold_left (λ st c, match c with Some v => kahan_add st v | None => st end)
     s (0%Q, 0%Q)).1.

(** The mean of one group in [groupby(...).agg('mean')]: the compensated
    sum divided by the number of cells that are present, NaN when there is
    none. *)
Definition group_mean (s : Series Q) : option Q :=
  match dropna s with
  | [] => None
  | vs => Some (f64_div (group_sum s) (inject_Z (Z.of_nat (length vs))))
  end.

(** [round(2)]: numpy multiplies by 100, rounds to the nearest integer
    and divides by 100, all three in [float64]. *)
Definition round2 (x : Q) : Q :=
  f64_div (inject_Z (rint (f64_mul x 100))) 100.

(** The hash-table pass behind [unique] and [factorize]: values in order
    of first appearance. [seen] holds the values already emitted. *)
Fixpoint unique_from {A} `{EqDecision A} (seen : list A) (l : list A) : list A :=
  match l with
  | [] => []
  | x :: l' =>
      if decide (x ∈ seen) then unique_from seen l'
      else x :: unique_from (x :: seen) l'
  end.

Definition unique {A} `{EqDecision A} (l : list A) : list A := unique_from [] l.

(** [Series.nunique()] with the default [dropna=True]. *)
Definition nunique {A} `{EqDecision A} (s : Series A) : nat :=
  length (unique (dropna s)).

(** [df.groupby(key)] with the defaults [sort=True, dropna=True]: the
    distinct keys present, in ascending order, each with its rows in
    frame order. A row whose key is missing belongs to no group. *)
Definition groupby {R K} `{EqDecision K, Ord K}
    (key : R → option K) (rs : list R) : list (K * list R) :=
  (λ k, (k, filter (λ r, key r = Some k) rs)) <$> merge_sort key_le (unique (omap key rs)).

(** [DataFrame.tail(n)]: [iloc[0:0]] when [n] is 0, else [iloc[-n:]]; a
    slice start is clipped to the frame. *)
Definition slice_from {A} (start : Z) (l : list A) : list A :=
  let len := Z.of_nat (length l) in
  let s := if start <? 0 then Z.max 0 (len + start) else Z.min start len in
  drop (Z.to_nat s) l.

Definition tail {A} (n : Z) (l : list A) : list A :=
  if n =? 0 then [] else slice_from (- n) l.

(** Calendar months counted from January of year 0, and the last day of
    the month with a given index. *)
Definition month_index (t : Timestamp) : Z := 12 * year t + (month t - 1).

Definition is_leap (y : Z) : bool :=
  ((y mod 4 =? 0) && negb (y mod 100 =? 0)) || (y mod 400 =? 0).

Definition days_in_month (y m : Z) : Z :=
  if m =? 2 then (if is_leap y then 29 else 28)
  else if (m =? 4) || (m =? 6) || (m =? 9) || (m =? 11) then 30
  else 31.

Definition month_end (i : Z) : Timestamp :=
  {| year := i `div` 12; month := i `mod` 12 + 1;
     day := days_in_month (i `div` 12) (i `mod` 12 + 1) |}.

(** A stable sort, the order of [argsort(kind='mergesort')]: going
    through the rows from the last to the first, a row is put before the
    first row of the sorted rest that is not smaller, so rows that compare
    equal keep their order. *)
Section sort_stable.
Context {A : Type} (le : relation A) `{!RelDecision le}.

Fixpoint insert_before (x : A) (l : list A) : list A :=
  match l with
  | [] => [x]
  | y :: l' => if decide (le x y) then x :: y :: l' else y :: insert_before x l'
  end.

Definition sort_stable (l : list A) : list A := foldr insert_before [] l.
End sort_stable.

(** The order of the rows by date, a missing date coming first. *)
Definition date_le {R} (date : R → option Timestamp) : relation R :=
  λ r1 r2, match date r1, date r2 with
           | None, _ => True
           | Some _, None => False
           | Some t1, Some t2 => key_le t1 t2
           end.

#[global] Instance date_le_dec {R} (date : R → option Timestamp) : RelDecision (date_le date).
Proof. intros r1 r2. unfold date_le. destruct (date r1), (date r2); apply _. Defined.

(** [df.groupby(pd.Grouper(key=date, freq='M'))], for rows of which one has
    a date: one bin per calendar month from the month of the earliest date
    to the month of the latest, labelled with the month's last day; a bin
    is produced whether or not a row falls into it. A grouper with a
    frequency sorts the rows by date before it cuts them into bins, so the
    rows of a bin are in the order of their dates, rows of one date in
    frame order. Rows without a date are in no bin. *)
Definition groupby_Grouper_M {R}
    (date : R → option Timestamp) (rs : list R) : list (Timestamp * list R) :=
  match month_index <$> omap date rs with
  | [] => []
  | i :: rest =>
      let lo := foldr Z.min i rest in
      let hi := foldr Z.max i rest in
      let sorted := sort_stable (date_le date) rs in
      (λ j, (month_end j, filter (λ r, month_index <$> date r = Some j) sorted))
        <$> seqZ lo (hi - lo + 1)
  end.

(** [Series.dt.to_period('M').dt.to_timestamp()]: the first day of the
    month. *)
Definition to_month_start (t : Timestamp) : Timestamp :=
  {| year := year t; month := month t; day := 1 |}.

(** [sort_values(by=..., ascending=False)] with the default
    [kind='quicksort']: pandas reverses the rows, sorts them in ascending
    order with numpy's quicksort, and reverses the result. numpy's
    quicksort is an introsort whose order among equal values is not fixed;
    it enters as the parameter [quicksort]. *)
Section sort_values.
Context {A : Type} (quicksort : list A → list A).

Definition sort_values_desc (l : list A) : list A :=
  reverse (quicksort (reverse l)).
End sort_values.

End pd.

(** ** The transaction table *)

(** One line of [data/Superstore.csv], restricted to the columns the script
    reads, followed by the two columns the Trends page assigns. *)
Record Row := mkRow {
  Order_ID : option string;
  Order_Date : option Timestamp;
  Category : option string;
  Sub_Category : option string;
  Region : option string;
  Segment : option string;
  Sales : option Q;
  Profit : option Q;
  Discount : option Q;
  Quantity : option Z;
  Order_Month : option Timestamp;
  Year : option Z
}.

(** A frame: its column labels and its rows. A label of [Row] that is not
    in [columns] is a column the frame does not have yet. *)
Record DataFrame := mkFrame { columns : list string; rows : list Row }.

Definition set_Order_Month (v : option Timestamp) (r : Row) : Row :=
  mkRow (Order_ID r) (Order_Date r) (Category r) (Sub_Category r) (Region r)
        (Segment r) (Sales r) (Profit r) (Discount r) (Quantity r) v (Year r).

Definition set_Year (v : option Z) (r : Row) : Row :=
  mkRow (Order_ID r) (Order_Date r) (Category r) (Sub_Category r) (Region r)
        (Segment r) (Sales r) (Profit r) (Discount r) (Quantity r) (Order_Month r) v.

(** [df[name] = ...]: the label is appended unless the frame has it. *)
Definition assign (name : string) (upd : Row → Row) (df : DataFrame) : DataFrame :=
  {| columns := if decide (name ∈ columns df) then columns df else columns df ++ [name];
     rows := upd <$> rows df |}.

(** [df[mask]] *)
Definition boolean_index (mask : Row → bool) (df : DataFrame) : DataFrame :=
  {| columns := columns df; rows := filter (λ r, mask r = true) (rows df) |}.

(** ** Exceptions *)

(** The script catches no exception: a statement returns a value or
    raises, and a raise ends the run. *)
Inductive Exception := AttributeError | TypeError.

Inductive Result (A : Type) := Returns (a : A) | Raises (e : Exception).
Arguments Returns {A}.
Arguments Raises {A}.

(** [read_csv(..., parse_dates=['Order Date'])] makes the column
    [datetime64] when the file has a data row. The column of a file that
    has only its header line stays [object], and its [.dt] accessor raises. *)
Definition dt (df : DataFrame) : Result unit :=
  match rows df with
  | [] => Raises AttributeError
  | _ :: _ => Returns ()
  end.

(** ** Overview page *)

Record KPIs := mkKPIs {
  total_sales : Q;
  total_profit : Q;
  total_orders : nat;
  total_quantity : Z
}.

Definition kpis (df : DataFrame) : KPIs :=
  {| total_sales := pd.sum (Sales <$> rows df);
     total_profit := pd.sum (Profit <$> rows df);
     total_orders := pd.nunique (Order_ID <$> rows df);
     total_quantity := pd.sum_int (Quantity <$> rows df) |}.

(** [df.groupby(pd.Grouper(key='Order Date', freq='M'))['Sales'].sum()]:
    the series, for a frame in which some row has a date. *)
Definition monthly_sales (df : DataFrame) : list (Timestamp * Q) :=
  (λ '(m, g), (m, pd.group_sum (Sales <$> g))) <$> pd.groupby_Grouper_M Order_Date (rows df).

(** The same statement with the exceptions of [pd.Grouper]: it wants a
    [datetime64] column, and it cannot lay out its bins when no row has a
    date. *)
Definition try_monthly_sales (df : DataFrame) : Result (list (Timestamp * Q)) :=
  match rows df, omap Order_Date (rows df) with
  | [], _ => Raises TypeError
  | _ :: _, [] => Raises AttributeError
  | _ :: _, _ :: _ => Returns (monthly_sales df)
  end.

(** ** Trends page *)

Record MonthlyRow := mkMonthly {
  m_Order_Month : Timestamp;
  m_Sales : Q;
  m_Profit : Q;
  m_Discount : Q
}.

(** [df['Order Month'] = df['Order Date'].dt.to_period('M').dt.to_timestamp()] *)
Definition assign_Order_Month : DataFrame → DataFrame :=
  assign "Order Month" (λ r, set_Order_Month (pd.to_month_start <$> Order_Date r) r).

(** [df['Year'] = df['Order Date'].dt.year] *)
Definition assign_Year : DataFrame → DataFrame :=
  assign "Year" (λ r, set_Year (year <$> Order_Date r) r).

(** [df.groupby('Order Month')[['Sales', 'Profit', 'Discount']].sum()] *)
Definition monthly (df : DataFrame) : list MonthlyRow :=
  (λ '(m, g), {| m_Order_Month := m;
                 m_Sales := pd.group_sum (Sales <$> g);
                 m_Profit := pd.group_sum (Profit <$> g);
                 m_Discount := pd.group_sum (Discount <$> g) |})
    <$> pd.groupby Order_Month (rows df).

(** [df[df['Year'] == selected_year]]; a missing year equals nothing. *)
Definition filtered_df (df : DataFrame) (selected_year : Z) : DataFrame :=
  boolean_index (λ r, match Year r with Some y => y =? selected_year | None => false end) df.

(** The page body: the frame it leaves behind, the trend over all years and
    the trend of the selected year. *)
Definition trends_page (df : DataFrame) (selected_year : Z)
    : DataFrame * (list MonthlyRow * list MonthlyRow) :=
  let df1 := assign_Order_Month df in
  let all_years := monthly df1 in
  let df2 := assign_Year df1 in
  (df2, (all_years, monthly (filtered_df df2 selected_year))).

(** The operations of the page on a freshly loaded frame that has a
    [datetime64] date column. *)
Definition monthly_trend (df : DataFrame) : list MonthlyRow :=
  monthly (assign_Order_Month df).

Definition filter_by_year (df : DataFrame) (selected_year : Z) : DataFrame :=
  filtered_df (assign_Year df) selected_year.

(** The same operations and the page body as the script runs them: lines
    195 and 197 go through the [.dt] accessor of the date column. *)
Definition try_monthly_trend (df : DataFrame) : Result (list MonthlyRow) :=
  match dt df with
  | Raises e => Raises e
  | Returns _ => Returns (monthly_trend df)
  end.

Definition try_filter_by_year (df : DataFrame) (selected_year : Z) : Result DataFrame :=
  match dt df with
  | Raises e => Raises e
  | Returns _ => Returns (filter_by_year df selected_year)
  end.

Definition try_trends_page (df : DataFrame) (selected_year : Z)
    : Result (DataFrame * (list MonthlyRow * list MonthlyRow)) :=
  match dt df with
  | Raises e => Raises e
  | Returns _ => Returns (trends_page df selected_year)
  end.

(** ** Category, Region and Segment pages *)

Record GroupSummary (K : Type) := mkGroup {
  g_key : K;
  g_Sales : Q;
  g_Profit : Q
}.
Arguments mkGroup {K}.
Arguments g_key {K}.
Arguments g_Sales {K}.
Arguments g_Profit {K}.

(** [df.groupby(key)[['Sales', 'Profit']].sum().reset_index()] *)
Definition group_summary {K} `{EqDecision K, Ord K}
    (key : Row → option K) (df : DataFrame) : list (GroupSummary K) :=
  (λ '(k, g), {| g_key := k;
                 g_Sales := pd.group_sum (Sales <$> g);
                 g_Profit := pd.group_sum (Profit <$> g) |})
    <$> pd.groupby key (rows df).

Definition cat_summary : DataFrame → list (GroupSummary string) :=
  group_summary Category.



(** [groupby(['Category', 'Sub-Category'])]: the key is the pair, and a row
    lacking either part is dropped. *)
Definition Category_Sub_Category (r : Row) : option (string * string) :=
  c ← Category r; s ← Sub_Category r; Some (c, s).

Definition subcat_summary : DataFrame → list (GroupSummary (string * string)) :=
  group_summary Category_Sub_Category.

(** The tables shown with [.sort_values(by='Sales', ascending=False)]. *)
Definition by_Sales_desc {K} (quicksort : list (GroupSummary K) → list (GroupSummary K))
    : list (GroupSummary K) → list (GroupSummary K) :=
  pd.sort_values_desc quicksort.

(** ** Forecasting page *)

(** One line of [data/forecast_sales.csv]. The file is read without
    [parse_dates], so [ds] stays text. *)
Record ForecastRow := mkForecast {
  ds : option string;
  yhat : option Q;
  yhat_lower : option Q;
  yhat_upper : option Q
}.

(** Diagnostics a load could report, and computations that log them. *)
Inductive Level := INFO | WARNING | ERROR.

Record Diagnostic := mkDiagnostic { level : Level; message : string }.

Definition Logged (A : Type) : Type := A * list Diagnostic.

#[global] Instance Logged_ret : MRet Logged := λ A a, (a, []).

#[global] Instance Logged_bind : MBind Logged :=
  λ A B f m, let '(b, w) := f m.1 in (b, m.2 ++ w).

Definition result {A} (m : Logged A) : A := m.1.
Definition diagnostics {A} (m : Logged A) : list Diagnostic := m.2.

(** [forecast_data = pd.read_csv("data/forecast_sales.csv")]; [file] is the
    table the file holds. *)
Definition load_forecast (file : list ForecastRow) : Logged (list ForecastRow) :=
  mret file.

(** [forecast_data[['ds', 'yhat', 'yhat_lower', 'yhat_upper']].tail(n)] *)
Definition tail (forecast : list ForecastRow) (n : Z) : list ForecastRow :=
  pd.tail n forecast.

(** The page body: the table under the chart. *)
Definition forecasting_page (file : list ForecastRow) : Logged (list ForecastRow) :=
  forecast_data ← load_forecast file;
  mret (tail forecast_data 5).

(** ** Clustering page *)

Module ClusterTable.
(** One line of [data/clustered_data.csv], restricted to the columns the
    script reads. *)
Record Row := mkRow {
  Cluster : option Z;
  Sales : option Q;
  Profit : option Q;
  Discount : option Q;
  Quantity : option Z
}.
End ClusterTable.

Module Summary.
(** A row of [summary_df] before the label column is added. *)
Record Row := mkRow {
  Cluster : Z;
  Sales : option Q;
  Profit : option Q;
  Discount : option Q;
  Quantity : option Q
}.
End Summary.

(** The mean of an integer column is taken on its cells as [float64]. *)
Definition to_float (c : option Z) : option Q := pd.astype_float64 <$> c.

(** [.agg({'Sales': 'mean', 'Profit': 'mean', 'Discount': 'mean',
    'Quantity': 'mean'}).round(2)] on one group. *)
Definition agg_mean_round (group : Z * list ClusterTable.Row) : Summary.Row :=
  let '(c, g) := group in
  {| Summary.Cluster := c;
     Summary.Sales := pd.round2 <$> pd.group_mean (ClusterTable.Sales <$> g);
     Summary.Profit := pd.round2 <$> pd.group_mean (ClusterTable.Profit <$> g);
     Summary.Discount := pd.round2 <$> pd.group_mean (ClusterTable.Discount <$> g);
     Summary.Quantity :=
       pd.round2 <$> pd.group_mean (to_float <$> (ClusterTable.Quantity <$> g)) |}.

(** [cluster_df.groupby('Cluster').agg({...}).round(2).reset_index()] *)
Definition summary_df (cluster_df : list ClusterTable.Row) : list Summary.Row :=
  agg_mean_round <$> pd.groupby ClusterTable.Cluster cluster_df.

Definition cluster_labels : gmap Z string :=
  {[ 0 := "🧾 Regular Customers";
     1 := "🏆 VIPs — High Value Clients";
     2 := "🎯 Medium Segment — Stable";
     3 := "⚠️ Risky — Discount Loss Group" ]}.

(** [summary_df["Interpretation"] = summary_df["Cluster"].map(cluster_labels)]:
    each row with its label, [None] where the dictionary has no entry. *)
Definition summarize (cluster_df : list ClusterTable.Row)
    : list (Summary.Row * option string) :=
  (λ s, (s, cluster_labels !! Summary.Cluster s)) <$> summary_df cluster_df.

(** ** The cached load and the script *)

(** [@st.cache_data] keeps the pickled return value of [load_data]; every
    call unpickles it into a new object. A session is the cache entry and
    the heap of frame objects; a frame variable holds an index into the
    heap. *)
Record Session := mkSession { cache : option DataFrame; heap : list DataFrame }.

Definition alloc (v : DataFrame) (σ : Session) : nat * Session :=
  (length (heap σ), {| cache := cache σ; heap := heap σ ++ [v] |}).

(** [src] is the frame [pd.read_csv] parses from [data/Superstore.csv]. *)
Definition load_data (src : DataFrame) (σ : Session) : nat * Session :=
  match cache σ with
  | Some v => alloc v σ
  | None => alloc src {| cache := Some src; heap := heap σ |}
  end.

(** One run of the script: [df = load_data()], then the body of the chosen
    page. Only the Trends page writes to [df]; the other pages read it. *)
Definition run (src : DataFrame) (page : string) (selected_year : Z) (σ : Session)
    : Session :=
  let '(df, σ1) := load_data src σ in
  if decide (page = "Trends") then
    {| cache := cache σ1;
       heap := alter (λ d, (trends_page d selected_year).1) df (heap σ1) |}
  else σ1.

(** A sequence of page views, each with the year chosen in the select box. *)
Definition runs (src : DataFrame) (views : list (string * Z)) (σ : Session) : Session :=
  foldl (λ σ v, run src v.1 v.2 σ) σ views.

(** ** The metric tiles of the Overview page *)

(** The decimal digits of a natural number, most significant first. *)
Definition digits (n : N) : list Ascii.ascii :=
  String.list_ascii_of_string (NilZero.string_of_uint (N.to_uint n)).

(** The thousands separators of the format option [,], on the digits in
    reverse order: a comma after every third digit that has a successor. *)
Fixpoint group3_rev (ds : list Ascii.ascii) : list Ascii.ascii :=
  match ds with
  | a :: b :: c :: ((_ :: _) as rest) => a :: b :: c :: ","%char :: group3_rev rest
  | _ => ds
  end.

Definition group3 (ds : list Ascii.ascii) : list Ascii.ascii := reverse (group3_rev (reverse ds)).

(** [f"{n:,}"] for an integer: the sign, then the grouped digits. *)
Definition format_int (n : Z) : string :=
  String.string_of_list_ascii
    ((if n <? 0 then ["-"%char] else []) ++ group3 (digits (Z.abs_N n))).

(** [f"{x:,.0f}"] for a float: the value rounded to an integer, halves to
    the even neighbour; the sign is that of [x], also when it rounds to 0. *)
Definition format_f0 (x : Q) : string :=
  String.string_of_list_ascii
    ((if Qlt_le_dec x 0 then ["-"%char] else []) ++ group3 (digits (Z.abs_N (pd.rint x)))).

(** The four [st.metric] values, in column order. The quantity tile is
    that of an [int64] sum, which the sum of [Quantity] is when no cell of
    the column is missing. *)
Record Metrics := mkMetrics {
  metric_sales : string;
  metric_orders : string;
  metric_quantity : string;
  metric_profit : string
}.

Definition overview_metrics (k : KPIs) : Metrics :=
  {| metric_sales := "$" ++ format_f0 (total_sales k);
     metric_orders := format_int (Z.of_nat (total_orders k));
     metric_quantity := format_int (total_quantity k);
     metric_profit := "$" ++ format_f0 (total_profit k) |}.

(** ** The long form of the monthly table *)

(** A row of the frame the line charts of the Trends page are drawn from. *)
Record MeltedRow := mkMelted {
  l_Order_Month : Timestamp;
  l_Metric : string;
  l_Value : Q
}.

Definition value_vars : list (string * (MonthlyRow → Q)) :=
  [("Sales", m_Sales); ("Profit", m_Profit); ("Discount", m_Discount)].

(** [monthly.melt(id_vars='Order Month', value_vars=['Sales', 'Profit',
    'Discount'], var_name='Metric', value_name='Value')]: the value columns
    stacked one after the other, each in the row order of the table. *)
Definition melt (monthly : list MonthlyRow) : list MeltedRow :=
  var ← value_vars;
  (λ m, mkMelted (m_Order_Month m) var.1 (var.2 m)) <$> monthly.


(** ** Notions used to state the properties *)

(** The order axioms of a key type. *)
Class OrdLaws (K : Type) `{Ord K} : Prop := {
  key_le_total :: Total (key_le (K := K));
  key_le_trans :: Transitive (key_le (K := K));
  key_le_antisym :: AntiSymm (=) (key_le (K := K))
}.

(** Arithmetic sums and means of the values that are present. *)
Definition sumQ (l : list Q) : Q := foldr Qplus 0%Q l.

Definition sumZ (l : list Z) : Z := foldr Z.add 0 l.

Definition arith_mean (l : list Q) : option Q :=
  match l with
  | [] => None
  | _ => Some (sumQ l / inject_Z (Z.of_nat (length l)))%Q
  end.


(** Cells that [float64] adds without rounding: they are multiples of one
    power of two [2 ^ k] with [k <= 0], and their absolute values add up to
    at most [2 ^ (53 + k)], so that every partial sum has at most 53
    significant bits. Whole numbers with a total of at most [2 ^ 53] are
    such cells, and so are amounts in quarters or eighths. *)
Definition on_grid (k : Z) (x : Q) : Prop := ∃ m : Z, (x == inject_Z m * 2 ^ k)%Q.

Definition sumabs (l : list Q) : Q := sumQ (Qabs <$> l).

Definition exact_cells (cells : list Q) : Prop :=
  ∃ k : Z, -1074 ≤ k ≤ 0 ∧ Forall (on_grid k) cells ∧ (sumabs cells <= 2 ^ (53 + k))%Q.


(** The group keys of a frame in the order in which the rows first show
    them. *)
Definition first_seen_keys {K} `{EqDecision K} (key : Row → option K) (df : DataFrame)
    : list K :=
  pd.unique (omap key (rows df)).

(** The calendar month of a row, as the index of its month, and the rows of
    a frame that fall into the month with index [j]. *)
Definition month_of (r : Row) : option Z := pd.month_index <$> Order_Date r.

Definition rows_of_month (j : Z) (df : DataFrame) : list Row :=
  filter (λ r, month_of r = Some j) (rows df).

(** The same rows in the order of their dates. *)
Definition rows_of_month_by_date (j : Z) (df : DataFrame) : list Row :=
  filter (λ r, month_of r = Some j) (pd.sort_stable (pd.date_le Order_Date) (rows df)).

(** The two invariants a forecast table is meant to satisfy: the interval
    encloses the point forecast on every row, and the dates increase. *)
Definition interval_ordered (r : ForecastRow) : bool :=
  match yhat_lower r, yhat r, yhat_upper r with
  | Some l, Some p, Some u => Qle_bool l p && Qle_bool p u
  | _, _, _ => false
  end.

Fixpoint dates_increasing (l : list ForecastRow) : bool :=
  match l with
  | r1 :: ((r2 :: _) as l') =>
      match ds r1, ds r2 with
      | Some d1, Some d2 => String.ltb d1 d2 && dates_increasing l'
      | _, _ => false
      end
  | _ => true
  end.

Definition forecast_valid (l : list ForecastRow) : bool :=
  forallb interval_ordered l && dates_increasing l.

Definition is_warning (d : Diagnostic) : Prop := level d = WARNING.

(** Ascending and descending order of summary rows by their sales. *)
Definition Sales_le {K} : relation (GroupSummary K) :=
  λ a b, (g_Sales a <= g_Sales b)%Q.

#[global] Instance Sales_le_dec {K} : RelDecision (@Sales_le K).
Proof.
  intros a b. unfold Sales_le.
  destruct (Qlt_le_dec (g_Sales b) (g_Sales a)) as [Hlt | Hle].
  - right. apply Qlt_not_le, Hlt.
  - left. exact Hle.
Defined.

(** A sorting routine that meets the contract of [quicksort]. *)
Definition stable_sort {K} : list (GroupSummary K) → list (GroupSummary K) :=
  merge_sort Sales_le.

(** Reading a number back from a tile: the commas are dropped and the rest
    is read as a decimal integer. *)
Definition without_commas (s : string) : string :=
  String.string_of_list_ascii
    (filter (λ c, c ≠ ","%char) (String.list_ascii_of_string s)).

Definition read_int (s : string) : option Z :=
  Z.of_int <$> NilZero.int_of_string (without_commas s).

Definition after_dollar (s : string) : string :=
  match s with
  | String.String "$" rest => rest
  | _ => s
  end.

(** ** Sample tables *)

Definition tx (id : string) (y m d : Z) (cat sub reg seg : string)
    (s p di : Q) (q : Z) : Row :=
  mkRow (Some id) (Some (mkTimestamp y m d)) (Some cat) (Some sub) (Some reg)
        (Some seg) (Some s) (Some p) (Some di) (Some q) None None.

Definition superstore_columns : list string :=
  ["Order ID"; "Order Date"; "Category"; "Sub-Category"; "Region"; "Segment";
   "Sales"; "Profit"; "Discount"; "Quantity"].

(** Two lines of order A in January 2024, one line of order B in March. *)
Definition sample_df : DataFrame :=
  mkFrame superstore_columns
    [ tx "A" 2024 1 5 "Technology" "Phones" "West" "Consumer" 100 10 0 2;
      tx "A" 2024 1 20 "Furniture" "Chairs" "East" "Consumer" 50 (-5) (1 # 4) 1;
      tx "B" 2024 3 1 "Technology" "Accessories" "West" "Corporate" 30 3 0 4 ].

(** Two orders with the sales 0.1 and 0.2, as the doubles [read_csv] makes
    of them, and the quantities 2^63 - 1 and 1. *)
Definition rounding_df : DataFrame :=
  mkFrame superstore_columns
    [ tx "A" 2024 1 5 "Technology" "Phones" "West" "Consumer"
         (pd.round64 (1 # 10)) 0 0 (2 ^ 63 - 1);
      tx "B" 2024 1 6 "Furniture" "Chairs" "East" "Consumer"
         (pd.round64 (2 # 10)) 0 0 1 ].

(** Three rows with the sales 0.1, 1.1 and 0.1 in the categories, regions
    and segments A, B and A. *)
Definition conservation_df : DataFrame :=
  mkFrame superstore_columns
    [ tx "A" 2024 1 5 "A" "x" "A" "A" (pd.round64 (1 # 10)) 0 0 1;
      tx "B" 2024 1 6 "B" "y" "B" "B" (pd.round64 (11 # 10)) 0 0 1;
      tx "C" 2024 1 7 "A" "x" "A" "A" (pd.round64 (1 # 10)) 0 0 1 ].

(** One month with the sales 0.1, 1.1 and 0.1, the rows not in the order of
    their dates. *)
Definition unsorted_df : DataFrame :=
  mkFrame superstore_columns
    [ tx "A" 2024 1 20 "A" "x" "A" "A" (pd.round64 (1 # 10)) 0 0 1;
      tx "B" 2024 1 5 "B" "y" "B" "B" (pd.round64 (11 # 10)) 0 0 1;
      tx "C" 2024 1 6 "A" "x" "A" "A" (pd.round64 (1 # 10)) 0 0 1 ].

(** A frame read from a file that has only its header line. *)
Definition header_only : DataFrame := mkFrame superstore_columns [].

(** A forecast whose second row has its lower bound above the point
    forecast and whose dates go backwards. *)
Definition sample_forecast : list ForecastRow :=
  [ mkForecast (Some "2018-01-31") (Some 100%Q) (Some 90%Q) (Some 110%Q);
    mkForecast (Some "2017-12-31") (Some 100%Q) (Some 120%Q) (Some 130%Q);
    mkForecast (Some "2018-03-31") (Some 105%Q) (Some 95%Q) (Some 115%Q) ].


(** Clusters 4, 0 and 4 again; 4 has no label. *)
Definition sample_clusters : list ClusterTable.Row :=
  [ ClusterTable.mkRow (Some 4) (Some (1 # 4)%Q) (Some 1%Q) (Some (1 # 8)%Q) (Some 3);
    ClusterTable.mkRow (Some 0) (Some (1 # 4)%Q) (Some 1%Q) (Some (1 # 8)%Q) (Some 3);
    ClusterTable.mkRow (Some 4) (Some (1 # 2)%Q) (Some 1%Q) (Some (1 # 4)%Q) (Some 4) ].

(** * Properties *)

(** ** Order laws of the key types *)

#[global] Instance Z_OrdLaws : OrdLaws Z.
Proof.
  split.
  - intros x y. simpl. lia.
  - intros x y z. simpl. lia.
  - intros x y. simpl. lia.
Qed.

Lemma string_leb_iff (s1 s2 : string) :
  String.leb s1 s2 = true ↔ s1 = s2 ∨ String_as_OT.lt s1 s2.
Proof.
  unfold String.leb.
  pose proof (String_as_OT.cmp_eq s1 s2) as Heq.
  pose proof (String_as_OT.cmp_lt s1 s2) as Hlt.
  unfold String_as_OT.cmp in *.
  destruct (String.compare s1 s2) eqn:Hc.
  - split; [intros _; left; by apply Heq | done].
  - split; [intros _; right; by apply Hlt | done].
  - split; [done |]. intros [H | H].
    + apply Heq in H. discriminate.
    + apply Hlt in H. discriminate.
Qed.

#[global] Instance string_OrdLaws : OrdLaws string.
Proof.
  split.
  - intros x y. simpl. destruct (String.leb_total x y); auto.
  - intros x y z. simpl. rewrite !string_leb_iff.
    intros [-> | Hxy] [-> | Hyz]; auto.
    right. eapply String_as_OT.lt_trans; eauto.
  - intros x y. simpl. apply String.leb_antisym.
Qed.

Section prod_laws.
Context {A B : Type} `{EqDecision A, Ord A, Ord B, !OrdLaws A, !OrdLaws B}.

Lemma key_lt_trans (x y z : A) : key_lt x y → key_lt y z → key_lt x z.
Proof.
  intros [Hxy Hne] [Hyz Hne']. split.
  - by etrans.
  - intros ->. apply Hne. by apply (anti_symm key_le).
Qed.

#[global] Instance prod_OrdLaws : OrdLaws (A * B).
Proof.
  split.
  - intros [a b] [a' b']. simpl. unfold prod_le, key_lt. simpl.
    destruct (decide (a = a')) as [-> | Hne].
    + destruct (total key_le b b'); auto.
    + destruct (total key_le a a'); auto.
  - intros [a b] [a' b'] [a'' b'']. simpl. unfold prod_le. simpl.
    intros [H1 | [-> H1]] [H2 | [-> H2]]; auto.
    + left. eapply key_lt_trans; eauto.
    + right. split; [done | by etrans].
  - intros [a b] [a' b']. simpl. unfold prod_le, key_lt. simpl.
    intros [[H1 Hne] | [-> H1]] [[H2 Hne'] | [Heq H2]]; try congruence.
    + exfalso. apply Hne. by apply (anti_symm key_le).
    + f_equal. by apply (anti_symm key_le).
Qed.
End prod_laws.

#[global] Instance Timestamp_OrdLaws : OrdLaws Timestamp.
Proof.
  split.
  - intros s t. exact (total key_le (Timestamp_key s) (Timestamp_key t)).
  - intros s t u.
    exact (transitivity (R := key_le) (x := Timestamp_key s) (y := Timestamp_key t)
             (z := Timestamp_key u)).
  - intros [y m d] [y' m' d'] H1 H2.
    assert (Timestamp_key (mkTimestamp y m d) = Timestamp_key (mkTimestamp y' m' d')) as Heq
      by (by apply (anti_symm key_le)).
    unfold Timestamp_key in Heq. simpl in Heq. congruence.
Qed.

(** A list without repetition that is sorted is strictly sorted. *)
Lemma StronglySorted_key_lt {K} `{Ord K, !OrdLaws K} (l : list K) :
  Sorted key_le l → NoDup l → StronglySorted key_lt l.
Proof.
  intros Hs Hnd. apply Sorted_StronglySorted in Hs; [| apply _].
  induction Hs as [| x l Hs IH Hall]; [constructor |].
  apply NoDup_cons in Hnd as [Hx Hnd].
  constructor; [by apply IH |].
  rewrite Forall_forall in *. intros y Hy. split; [by apply Hall |].
  intros ->. done.
Qed.

(** ** Sums *)

Lemma dropna_fmap {A B} (f : A → option B) (l : list A) :
  pd.dropna (f <$> l) = omap f l.
Proof.
  unfold pd.dropna. induction l as [| x l IH]; csimpl; [done |].
  rewrite IH. by destruct (f x).
Qed.

Lemma sumQ_app (l1 l2 : list Q) : (sumQ (l1 ++ l2) == sumQ l1 + sumQ l2)%Q.
Proof. induction l1 as [| x l1 IH]; simpl; [ring |]. rewrite IH. ring. Qed.

Lemma sumQ_Permutation (l1 l2 : list Q) : l1 ≡ₚ l2 → (sumQ l1 == sumQ l2)%Q.
Proof.
  induction 1 as [| x l1 l2 _ IH | x y l | l1 l2 l3 _ IH1 _ IH2]; simpl.
  - reflexivity.
  - by rewrite IH.
  - ring.
  - by rewrite IH1.
Qed.

(** ** Rounding to a double *)

Lemma rint_proper (x y : Q) : (x == y)%Q → pd.rint x = pd.rint y.
Proof.
  intros Hxy. unfold pd.rint.
  assert (Qfloor x = Qfloor y) as -> by (by rewrite Hxy).
  assert ((x - inject_Z (Qfloor y) ?= 1 # 2) = (y - inject_Z (Qfloor y) ?= 1 # 2))%Q as ->
    by (by rewrite Hxy).
  done.
Qed.

Lemma rint_inject_Z (n : Z) : pd.rint (inject_Z n) = n.
Proof.
  unfold pd.rint. rewrite Qfloor_Z.
  assert ((inject_Z n - inject_Z n ?= 1 # 2)%Q = Lt) as ->; [| done].
  rewrite <- Qlt_alt. lra.
Qed.

Lemma pow2_pos (e : Z) : (0 < 2 ^ e)%Q.
Proof. by apply Qpower_0_lt. Qed.

Lemma pow2_add (a b : Z) : (2 ^ (a + b) == 2 ^ a * 2 ^ b)%Q.
Proof. by apply Qpower_plus. Qed.

Lemma pow2_inject_Z (e : Z) : 0 ≤ e → (inject_Z (2 ^ e) == 2 ^ e)%Q.
Proof. intros He. by rewrite Zpower_Qpower. Qed.

Lemma pow2_le (a b : Z) : a ≤ b → (2 ^ a <= 2 ^ b)%Q.
Proof. intros Hab. by apply Qpower_le_compat_l. Qed.

Lemma pow2_lt_inv (a b : Z) : (2 ^ a < 2 ^ b)%Q → a < b.
Proof. intros Hab. by apply (Qpower_lt_compat_l_inv 2). Qed.

(** [pd.ilog2 x] is at most the binary logarithm of [|x|]. *)
Lemma ilog2_le (x : Q) : ¬ (x == 0)%Q → (2 ^ pd.ilog2 x <= Qabs x)%Q.
Proof.
  intros Hx. unfold pd.ilog2.
  destruct (Qle_bool _ _) eqn:Hb; [by apply Qle_bool_iff |]. clear Hb.
  destruct x as [n d]. simpl.
  assert (0 < Z.abs n) as Hn.
  { destruct (decide (n = 0)) as [-> | Hne]; [| lia]. exfalso. by apply Hx. }
  pose proof (Z.log2_spec _ Hn) as [Ha _].
  pose proof (Z.log2_spec (Z.pos d) ltac:(lia)) as [_ Hb].
  pose proof (Z.log2_nonneg (Z.abs n)) as Ha0.
  pose proof (Z.log2_nonneg (Z.pos d)) as Hb0.
  set (a := Z.log2 (Z.abs n)) in *. set (b := Z.log2 (Z.pos d)) in *.
  rewrite (Qmake_Qdiv (Z.abs n) d).
  apply Qle_shift_div_l; [reflexivity |].
  apply Qle_trans with (2 ^ (a - b - 1) * 2 ^ (b + 1))%Q.
  - apply Qmult_le_l; [apply pow2_pos |].
    rewrite <- pow2_inject_Z by lia. rewrite <- Zle_Qle. lia.
  - rewrite <- pow2_add. replace (a - b - 1 + (b + 1)) with a by lia.
    rewrite <- pow2_inject_Z by lia. by rewrite <- Zle_Qle.
Qed.

Lemma round64_proper (x y : Q) : (x == y)%Q → pd.round64 x = pd.round64 y.
Proof. intros Hxy. unfold pd.round64. by rewrite (Qred_complete x y Hxy). Qed.

(** A value with at most 53 significant bits above the smallest exponent
    is a double: rounding leaves it alone. *)
Lemma round64_exact_lt (x : Q) (m k : Z) :
  -1074 ≤ k → Z.abs m < 2 ^ 53 → (x == inject_Z m * 2 ^ k)%Q → (pd.round64 x == x)%Q.
Proof.
  intros Hk Hm Hx. unfold pd.round64.
  pose proof (Qred_correct x) as Hred. set (x' := Qred x) in *.
  destruct (Qeq_bool x' 0) eqn:H0.
  { apply Qeq_bool_iff in H0. by rewrite <- Hred, H0. }
  apply Qeq_bool_neq in H0.
  set (e := Z.max (pd.ilog2 x' - 52) (-1074)).
  assert (e ≤ k) as He.
  { assert (pd.ilog2 x' < 53 + k); [| lia].
    apply pow2_lt_inv. eapply Qle_lt_trans; [by apply ilog2_le |].
    rewrite Hred, Hx, Qabs_Qmult, pow2_add.
    rewrite (Qabs_pos (2 ^ k)) by apply Qlt_le_weak, pow2_pos.
    apply Qmult_lt_r; [apply pow2_pos |].
    change (Qabs (inject_Z m)) with (inject_Z (Z.abs m)).
    change (2 ^ 53)%Q with (inject_Z (2 ^ 53)). by rewrite <- Zlt_Qlt. }
  assert (x' / 2 ^ e == inject_Z (m * 2 ^ (k - e)))%Q as Hint.
  { rewrite Hred, Hx, inject_Z_mult, pow2_inject_Z by lia.
    replace k with ((k - e) + e) at 1 by lia. rewrite pow2_add.
    field. apply Qnot_eq_sym, Qlt_not_eq, pow2_pos. }
  rewrite (rint_proper _ _ Hint), rint_inject_Z, Qred_correct.
  rewrite <- Hint, <- Hred. field. apply Qnot_eq_sym, Qlt_not_eq, pow2_pos.
Qed.

Lemma round64_exact (x : Q) (m k : Z) :
  -1074 ≤ k → Z.abs m ≤ 2 ^ 53 → (x == inject_Z m * 2 ^ k)%Q → (pd.round64 x == x)%Q.
Proof.
  intros Hk Hm Hx.
  destruct (decide (Z.abs m = 2 ^ 53)) as [Heq | Hne].
  - apply (round64_exact_lt x (m / 2) (k + 1)); [lia | |].
    + assert (m = 2 ^ 53 ∨ m = - 2 ^ 53) as [-> | ->] by lia; by vm_compute.
    + rewrite Hx, pow2_add.
      assert (m = 2 * (m / 2)) as Hm2.
      { assert (m = 2 ^ 53 ∨ m = - 2 ^ 53) as [-> | ->] by lia; by vm_compute. }
      rewrite Hm2 at 1. rewrite inject_Z_mult. change (2 ^ 1)%Q with 2%Q.
      change (inject_Z 2) with 2%Q. ring.
  - apply (round64_exact_lt x m k); [done | lia | done].
Qed.

Lemma on_grid_proper k x y : (x == y)%Q → on_grid k x → on_grid k y.
Proof. intros Hxy [m Hm]. exists m. by rewrite <- Hxy. Qed.

Lemma on_grid_0 k : on_grid k 0.
Proof. exists 0. ring. Qed.

Lemma on_grid_plus k x y : on_grid k x → on_grid k y → on_grid k (x + y).
Proof. intros [m Hm] [n Hn]. exists (m + n). rewrite Hm, Hn, inject_Z_plus. ring. Qed.

Lemma on_grid_sumQ k l : Forall (on_grid k) l → on_grid k (sumQ l).
Proof. induction 1; simpl; [apply on_grid_0 | by apply on_grid_plus]. Qed.

Lemma sumabs_nonneg l : (0 <= sumabs l)%Q.
Proof.
  unfold sumabs. induction l as [| x l IH]; csimpl; [lra |].
  pose proof (Qabs_nonneg x). lra.
Qed.

Lemma Qabs_sumQ l : (Qabs (sumQ l) <= sumabs l)%Q.
Proof.
  unfold sumabs. induction l as [| x l IH]; csimpl; [by compute |].
  eapply Qle_trans; [apply Qabs_triangle |]. lra.
Qed.

Lemma sumabs_app (l1 l2 : list Q) : (sumabs (l1 ++ l2) == sumabs l1 + sumabs l2)%Q.
Proof. unfold sumabs. by rewrite fmap_app, sumQ_app. Qed.

Section exact.
Context (k : Z) (Hk : -1074 ≤ k).

Lemma round64_grid x : on_grid k x → (Qabs x <= 2 ^ (53 + k))%Q → (pd.round64 x == x)%Q.
Proof.
  intros [m Hm] Hb. apply (round64_exact x m k); [done | | done].
  rewrite Hm, Qabs_Qmult, pow2_add in Hb.
  rewrite (Qabs_pos (2 ^ k)) in Hb by apply Qlt_le_weak, pow2_pos.
  apply Qmult_le_r in Hb; [| apply pow2_pos].
  change (Qabs (inject_Z m)) with (inject_Z (Z.abs m)) in Hb.
  change (2 ^ 53)%Q with (inject_Z (2 ^ 53)) in Hb. by rewrite <- Zle_Qle in Hb.
Qed.

Lemma f64_add_exact a b :
  on_grid k a → on_grid k b → (Qabs a + Qabs b <= 2 ^ (53 + k))%Q → (pd.f64_add a b == a + b)%Q.
Proof.
  intros Ha Hb Hab. apply round64_grid; [by apply on_grid_plus |].
  eapply Qle_trans; [apply Qabs_triangle | done].
Qed.

Lemma fold_add_exact l acc :
  on_grid k acc → Forall (on_grid k) l → (Qabs acc + sumabs l <= 2 ^ (53 + k))%Q →
  (fold_left pd.f64_add l acc == acc + sumQ l)%Q.
Proof.
  intros Hacc Hl. revert acc Hacc. induction Hl as [| x l Hx Hl IH]; intros acc Hacc Hb; simpl.
  - ring.
  - unfold sumabs in Hb. csimpl in Hb. fold (sumabs l) in Hb.
    pose proof (sumabs_nonneg l) as Hn.
    assert (pd.f64_add acc x == acc + x)%Q as Heq by (apply f64_add_exact; [done .. | lra]).
    rewrite IH.
    + rewrite Heq. ring.
    + eapply on_grid_proper; [symmetry; exact Heq | by apply on_grid_plus].
    + rewrite Heq. pose proof (Qabs_triangle acc x). lra.
Qed.

Lemma zip_add_exact r c :
  length r = length c → Forall (on_grid k) r → Forall (on_grid k) c →
  (sumabs r + sumabs c <= 2 ^ (53 + k))%Q →
  Forall (on_grid k) (zip_with pd.f64_add r c) ∧
  (sumQ (zip_with pd.f64_add r c) == sumQ r + sumQ c)%Q ∧
  (sumabs (zip_with pd.f64_add r c) <= sumabs r + sumabs c)%Q.
Proof.
  intros Hlen Hr. revert c Hlen.
  induction Hr as [| x r Hx Hr IH]; intros [| y c] Hlen Hc Hb; try discriminate.
  - cbn [zip_with]. split; [apply Forall_nil_2 | split; [reflexivity | apply Qle_refl]].
  - apply Forall_cons in Hc as [Hy Hc]. injection Hlen as Hlen.
    unfold sumabs in Hb |- *. csimpl in Hb. csimpl.
    fold (sumabs r) (sumabs c) in Hb. fold (sumabs r) (sumabs c) (sumabs (zip_with pd.f64_add r c)).
    pose proof (sumabs_nonneg r). pose proof (sumabs_nonneg c).
    pose proof (Qabs_nonneg x). pose proof (Qabs_nonneg y).
    destruct (IH c Hlen Hc ltac:(lra)) as (Hg & Hs & Ha).
    assert (pd.f64_add x y == x + y)%Q as Heq by (apply f64_add_exact; [done .. | lra]).
    split; [| split].
    + constructor; [| done].
      eapply on_grid_proper; [symmetry; exact Heq | by apply on_grid_plus].
    + rewrite Heq, Hs. ring.
    + rewrite Heq. pose proof (Qabs_triangle x y). lra.
Qed.

Lemma tree8_exact r :
  length r = 8%nat → Forall (on_grid k) r → (sumabs r <= 2 ^ (53 + k))%Q →
  (pd.tree8 r == sumQ r)%Q.
Proof.
  intros Hlen Hr Hb.
  destruct r as [| r0 [| r1 [| r2 [| r3 [| r4 [| r5 [| r6 [| r7 [| ? ?]]]]]]]]]; try done.
  repeat (apply Forall_cons in Hr as [? Hr]).
  unfold sumabs in Hb. simpl in Hb. simpl.
  pose proof (Qabs_nonneg r0). pose proof (Qabs_nonneg r1). pose proof (Qabs_nonneg r2).
  pose proof (Qabs_nonneg r3). pose proof (Qabs_nonneg r4). pose proof (Qabs_nonneg r5).
  pose proof (Qabs_nonneg r6). pose proof (Qabs_nonneg r7).
  assert (pd.f64_add r0 r1 == r0 + r1)%Q as H01 by (apply f64_add_exact; [done .. | lra]).
  assert (pd.f64_add r2 r3 == r2 + r3)%Q as H23 by (apply f64_add_exact; [done .. | lra]).
  assert (pd.f64_add r4 r5 == r4 + r5)%Q as H45 by (apply f64_add_exact; [done .. | lra]).
  assert (pd.f64_add r6 r7 == r6 + r7)%Q as H67 by (apply f64_add_exact; [done .. | lra]).
  pose proof (Qabs_triangle r0 r1). pose proof (Qabs_triangle r2 r3).
  pose proof (Qabs_triangle r4 r5). pose proof (Qabs_triangle r6 r7).
  assert (pd.f64_add (pd.f64_add r0 r1) (pd.f64_add r2 r3) == r0 + r1 + (r2 + r3))%Q as H03.
  { rewrite <- H01, <- H23. apply f64_add_exact.
    - eapply on_grid_proper; [symmetry; exact H01 | by apply on_grid_plus].
    - eapply on_grid_proper; [symmetry; exact H23 | by apply on_grid_plus].
    - rewrite H01, H23. lra. }
  assert (pd.f64_add (pd.f64_add r4 r5) (pd.f64_add r6 r7) == r4 + r5 + (r6 + r7))%Q as H47.
  { rewrite <- H45, <- H67. apply f64_add_exact.
    - eapply on_grid_proper; [symmetry; exact H45 | by apply on_grid_plus].
    - eapply on_grid_proper; [symmetry; exact H67 | by apply on_grid_plus].
    - rewrite H45, H67. lra. }
  pose proof (Qabs_triangle (r0 + r1) (r2 + r3)). pose proof (Qabs_triangle (r4 + r5) (r6 + r7)).
  rewrite f64_add_exact.
  - rewrite H03, H47. ring.
  - eapply on_grid_proper; [symmetry; exact H03 | by repeat apply on_grid_plus].
  - eapply on_grid_proper; [symmetry; exact H47 | by repeat apply on_grid_plus].
  - rewrite H03, H47. lra.
Qed.

Lemma sum_unrolled_exact iterations r l :
  length r = 8%nat → (8 * iterations ≤ length l)%nat →
  Forall (on_grid k) r → Forall (on_grid k) l → (sumabs r + sumabs l <= 2 ^ (53 + k))%Q →
  (pd.sum_unrolled r l iterations == sumQ r + sumQ l)%Q.
Proof.
  revert r l. induction iterations as [| i IH]; intros r l Hr Hlen Hgr Hgl Hb; simpl.
  - pose proof (sumabs_nonneg l). pose proof (sumabs_nonneg r).
    assert (pd.tree8 r == sumQ r)%Q as Ht by (apply tree8_exact; [done .. | lra]).
    rewrite fold_add_exact; [by rewrite Ht | | done |].
    + eapply on_grid_proper; [symmetry; exact Ht | by apply on_grid_sumQ].
    + rewrite Ht. pose proof (Qabs_sumQ r). lra.
  - assert (length (take 8 l) = 8%nat) as Hlc by (rewrite length_take; lia).
    assert (sumabs l == sumabs (take 8 l) + sumabs (drop 8 l))%Q as Hal
      by (by rewrite <- sumabs_app, take_drop).
    assert (sumQ l == sumQ (take 8 l) + sumQ (drop 8 l))%Q as Hsl
      by (by rewrite <- sumQ_app, take_drop).
    pose proof (sumabs_nonneg (drop 8 l)).
    destruct (zip_add_exact r (take 8 l)) as (Hg & Hs & Ha);
      [congruence | done | by apply Forall_take | lra |].
    rewrite IH.
    + rewrite Hs, Hsl. ring.
    + rewrite length_zip_with, length_take. lia.
    + rewrite length_drop. lia.
    + done.
    + by apply Forall_drop.
    + lra.
Qed.

Lemma pairwise_sum_exact fuel l :
  (length l ≤ fuel)%nat → Forall (on_grid k) l → (sumabs l <= 2 ^ (53 + k))%Q →
  (pd.pairwise_sum fuel l == sumQ l)%Q.
Proof.
  revert l. induction fuel as [| fuel IH]; intros l Hlen Hg Hb.
  - destruct l; [| simpl in Hlen; lia]. reflexivity.
  - cbn [pd.pairwise_sum].
    destruct (decide (length l < 8)%nat) as [H8 | H8].
    { rewrite fold_add_exact; [ring | apply on_grid_0 | done |].
      change (Qabs 0) with 0%Q. lra. }
    destruct (decide (length l ≤ 128)%nat) as [H128 | H128].
    { rewrite sum_unrolled_exact.
      - rewrite <- (take_drop 8 l) at 3. by rewrite sumQ_app.
      - rewrite length_take. lia.
      - rewrite length_drop.
        pose proof (Nat.Div0.mul_div_le (length l) 8). lia.
      - by apply Forall_take.
      - by apply Forall_drop.
      - rewrite <- sumabs_app, take_drop. done. }
    set (n2 := (length l / 2 - (length l / 2) mod 8)%nat).
    assert (0 < n2 < length l)%nat as Hn2.
    { subst n2. pose proof (Nat.Div0.mul_div_le (length l) 2).
      pose proof (Nat.mod_upper_bound (length l / 2) 8 ltac:(lia)).
      assert (64 ≤ length l / 2)%nat by (apply Nat.div_le_lower_bound; lia). lia. }
    rewrite <- (take_drop n2 l) in Hb. rewrite sumabs_app in Hb.
    pose proof (sumabs_nonneg (take n2 l)). pose proof (sumabs_nonneg (drop n2 l)).
    assert (pd.pairwise_sum fuel (take n2 l) == sumQ (take n2 l))%Q as H1.
    { apply IH; [rewrite length_take; lia | by apply Forall_take | lra]. }
    assert (pd.pairwise_sum fuel (drop n2 l) == sumQ (drop n2 l))%Q as H2.
    { apply IH; [rewrite length_drop; lia | by apply Forall_drop | lra]. }
    rewrite f64_add_exact.
    + rewrite H1, H2, <- sumQ_app, take_drop. reflexivity.
    + eapply on_grid_proper; [symmetry; exact H1 | by apply on_grid_sumQ, Forall_take].
    + eapply on_grid_proper; [symmetry; exact H2 | by apply on_grid_sumQ, Forall_drop].
    + rewrite H1, H2. pose proof (Qabs_sumQ (take n2 l)). pose proof (Qabs_sumQ (drop n2 l)). lra.
Qed.

End exact.

Lemma sumQ_default (s : pd.Series Q) : (sumQ (default 0%Q <$> s) == sumQ (pd.dropna s))%Q.
Proof.
  unfold pd.dropna. induction s as [| [v |] s IH]; csimpl; [reflexivity | by rewrite IH |].
  rewrite IH. ring.
Qed.

Lemma sumabs_default (s : pd.Series Q) : (sumabs (default 0%Q <$> s) == sumabs (pd.dropna s))%Q.
Proof.
  unfold pd.dropna, sumabs. induction s as [| [v |] s IH]; csimpl; [reflexivity | by rewrite IH |].
  rewrite IH. change (Z.abs 0 # 1) with 0%Q. ring.
Qed.

Lemma Forall_default k (s : pd.Series Q) :
  Forall (on_grid k) (pd.dropna s) → Forall (on_grid k) (default 0%Q <$> s).
Proof.
  unfold pd.dropna. induction s as [| [v |] s IH]; csimpl; intros H.
  - constructor.
  - apply Forall_cons in H as [? ?]. constructor; auto.
  - constructor; [apply on_grid_0 | auto].
Qed.

Lemma sum_exact (s : pd.Series Q) :
  exact_cells (pd.dropna s) → (pd.sum s == sumQ (pd.dropna s))%Q.
Proof.
  intros (k & [Hk _] & Hg & Hb). unfold pd.sum.
  assert (pd.pairwise_sum (length (default 0%Q <$> s)) (default 0%Q <$> s) == sumQ (pd.dropna s))%Q as Hp.
  { rewrite (pairwise_sum_exact k Hk); [apply sumQ_default | done | by apply Forall_default |].
    by rewrite sumabs_default. }
  rewrite (f64_add_exact k Hk).
  - rewrite Hp. ring.
  - apply on_grid_0.
  - eapply on_grid_proper; [symmetry; exact Hp | by apply on_grid_sumQ].
  - rewrite Hp. change (Qabs 0) with 0%Q. pose proof (Qabs_sumQ (pd.dropna s)). lra.
Qed.

Lemma kahan_exact k (s : pd.Series Q) (sumx compensation : Q) :
  -1074 ≤ k → on_grid k sumx → (compensation == 0)%Q → Forall (on_grid k) (pd.dropna s) →
  (Qabs sumx + sumabs (pd.dropna s) <= 2 ^ (53 + k))%Q →
  ((fold_left (λ st c, match c with Some v => pd.kahan_add st v | None => st end) s
      (sumx, compensation)).1 == sumx + sumQ (pd.dropna s))%Q.
Proof.
  intros Hk. revert sumx compensation.
  induction s as [| [v |] s IH]; intros sumx c Hs Hc Hg Hb; csimpl.
  - ring.
  - unfold pd.dropna in Hg, Hb. csimpl in Hg; csimpl in Hb. fold (pd.dropna s) in Hg, Hb.
    apply Forall_cons in Hg as [Hv Hg].
    unfold sumabs in Hb. csimpl in Hb. fold (sumabs (pd.dropna s)) in Hb.
    pose proof (sumabs_nonneg (pd.dropna s)). pose proof (Qabs_nonneg sumx).
    pose proof (Qabs_nonneg v).
    unfold pd.kahan_add. cbn [fst snd].
    assert (pd.round64 v == v)%Q as Hrv by (apply (round64_grid k Hk); [done | lra]).
    assert (pd.f64_sub v c == v)%Q as Hy.
    { unfold pd.f64_sub. rewrite (round64_proper (v - c) v); [done |]. rewrite Hc. ring. }
    assert (pd.f64_add sumx (pd.f64_sub v c) == sumx + v)%Q as Ht.
    { unfold pd.f64_add. rewrite (round64_proper _ (sumx + v)) by (by rewrite Hy).
      apply (f64_add_exact k Hk); [done .. | lra]. }
    unfold pd.dropna. csimpl. fold (pd.dropna s).
    rewrite IH.
    + rewrite Ht. ring.
    + eapply on_grid_proper; [symmetry; exact Ht | by apply on_grid_plus].
    + unfold pd.f64_sub at 1.
      rewrite (round64_proper _ 0); [by vm_compute |].
      unfold pd.f64_sub at 1. rewrite (round64_proper _ v) by (rewrite Ht; ring).
      rewrite Hrv, Hy. ring.
    + done.
    + rewrite Ht. pose proof (Qabs_triangle sumx v). lra.
  - by apply IH.
Qed.

Lemma group_sum_exact (s : pd.Series Q) :
  exact_cells (pd.dropna s) → (pd.group_sum s == sumQ (pd.dropna s))%Q.
Proof.
  intros (k & [Hk _] & Hg & Hb). unfold pd.group_sum.
  rewrite (kahan_exact k); [ring | done | apply on_grid_0 | reflexivity | done |].
  change (Qabs 0) with 0%Q. lra.
Qed.

(** The cells of some of the rows add up without rounding when the cells
    of all rows do. *)
Lemma sumabs_omap_filter {A} (val : A → option Q) (P : A → Prop)
    `{∀ x, Decision (P x)} (l : list A) :
  (sumabs (omap val (filter P l)) <= sumabs (omap val l))%Q.
Proof.
  unfold sumabs. induction l as [| x l IH]; [by compute |].
  rewrite filter_cons. destruct (decide (P x)); csimpl; destruct (val x) as [v |]; csimpl;
    try pose proof (Qabs_nonneg v); lra.
Qed.

Lemma exact_cells_filter {A} (val : A → option Q) (P : A → Prop)
    `{∀ x, Decision (P x)} (l : list A) :
  exact_cells (omap val l) → exact_cells (omap val (filter P l)).
Proof.
  intros (k & Hk & Hg & Hb). exists k. split; [done |]. split.
  - rewrite Forall_forall in *. intros v (x & Hx & Hv)%list_elem_of_omap.
    apply list_elem_of_filter in Hx as [_ Hx]. apply Hg, list_elem_of_omap. eauto.
  - eapply Qle_trans; [apply sumabs_omap_filter | done].
Qed.

Lemma sumabs_Permutation (l1 l2 : list Q) : l1 ≡ₚ l2 → (sumabs l1 == sumabs l2)%Q.
Proof. intros Hp. unfold sumabs. apply sumQ_Permutation. by rewrite Hp. Qed.

Lemma exact_cells_Permutation (l1 l2 : list Q) : l1 ≡ₚ l2 → exact_cells l1 → exact_cells l2.
Proof.
  intros Hp (k & Hk & Hg & Hb). exists k. split; [done |]. split.
  - by rewrite <- Hp.
  - by rewrite <- (sumabs_Permutation _ _ Hp).
Qed.

Lemma sum_cells {A} (val : A → option Q) (l : list A) :
  exact_cells (omap val l) → (pd.sum (val <$> l) == sumQ (omap val l))%Q.
Proof. intros He. rewrite sum_exact; by rewrite dropna_fmap. Qed.

Lemma group_sum_cells {A} (val : A → option Q) (P : A → Prop)
    `{∀ x, Decision (P x)} (l : list A) :
  exact_cells (omap val l) →
  (pd.group_sum (val <$> filter P l) == sumQ (omap val (filter P l)))%Q.
Proof.
  intros He. rewrite group_sum_exact; rewrite dropna_fmap; [done |].
  by apply exact_cells_filter.
Qed.

(** ** First-seen uniques *)

Section unique.
Context {A : Type} `{EqDecision A}.
Implicit Types (l seen : list A).

Lemma elem_of_unique_from seen l x :
  x ∈ pd.unique_from seen l ↔ x ∈ l ∧ x ∉ seen.
Proof.
  revert seen. induction l as [| y l IH]; intros seen; simpl.
  - set_solver.
  - destruct (decide (y ∈ seen)) as [Hy | Hy].
    + rewrite IH, elem_of_cons. naive_solver.
    + rewrite !elem_of_cons, IH, not_elem_of_cons.
      destruct (decide (x = y)) as [-> | Hne]; naive_solver.
Qed.

Lemma NoDup_unique_from seen l : NoDup (pd.unique_from seen l).
Proof.
  revert seen. induction l as [| y l IH]; intros seen; simpl.
  - constructor.
  - destruct (decide (y ∈ seen)); [apply IH |].
    apply NoDup_cons. split; [| apply IH].
    rewrite elem_of_unique_from. set_solver.
Qed.

Lemma elem_of_unique l x : x ∈ pd.unique l ↔ x ∈ l.
Proof. unfold pd.unique. rewrite elem_of_unique_from. set_solver. Qed.

Lemma NoDup_unique l : NoDup (pd.unique l).
Proof. apply NoDup_unique_from. Qed.

Lemma unique_Permutation l1 l2 : l1 ≡ₚ l2 → pd.unique l1 ≡ₚ pd.unique l2.
Proof.
  intros Hp. apply NoDup_Permutation; [apply NoDup_unique .. |].
  intros x. rewrite !elem_of_unique. by rewrite Hp.
Qed.

End unique.

Lemma length_unique {A} `{Countable A} (l : list A) :
  length (pd.unique l) = size (list_to_set l : gset A).
Proof.
  rewrite <- (size_list_to_set (C := gset A) (pd.unique l)) by apply NoDup_unique.
  f_equal. apply set_eq. intros x.
  by rewrite !elem_of_list_to_set, elem_of_unique.
Qed.

(** ** KPIs *)

(** [int64] sums *)

Lemma wrap64_add (a b : Z) : pd.wrap64 (pd.wrap64 a + b) = pd.wrap64 (a + b).
Proof.
  unfold pd.wrap64. f_equal.
  replace ((a + 2 ^ 63) `mod` 2 ^ 64 - 2 ^ 63 + b + 2 ^ 63)
    with ((a + 2 ^ 63) `mod` 2 ^ 64 + b) by lia.
  rewrite Zplus_mod_idemp_l. f_equal. lia.
Qed.


Lemma sum_int64_acc (s : pd.Series Z) (a : Z) :
  None ∉ s →
  fold_left (λ acc c, pd.wrap64 (acc + default 0 c)) s (pd.wrap64 a)
  = pd.wrap64 (a + sumZ (pd.dropna s)).
Proof.
  revert a. induction s as [| [v |] s IH]; intros a Hs; simpl.
  - f_equal. lia.
  - rewrite wrap64_add, IH by (by apply not_elem_of_cons in Hs as [_ ?]).
    unfold pd.dropna. simpl. f_equal. lia.
  - exfalso. apply Hs. left.
Qed.

Lemma sum_int64 (s : pd.Series Z) :
  None ∉ s → pd.sum_int s = pd.wrap64 (sumZ (pd.dropna s)).
Proof.
  intros Hs. unfold pd.sum_int. rewrite decide_False by done.
  change 0 with (pd.wrap64 0) at 2. by rewrite sum_int64_acc.
Qed.

Lemma not_elem_of_None_fmap {A B} (f : A → option B) (l : list A) :
  Forall (λ x, is_Some (f x)) l ↔ None ∉ f <$> l.
Proof.
  rewrite Forall_forall, list_elem_of_fmap. split.
  - intros Hall (x & Hx & Hin). destruct (Hall x Hin) as [y Hy]. congruence.
  - intros Hn x Hin. destruct (f x) eqn:Hf; [by eexists |].
    exfalso. apply Hn. eauto.
Qed.




(** ** Grouping *)

Lemma sumQ_fmap_ext {A} (f g : A → Q) (l : list A) :
  (∀ x, x ∈ l → f x == g x)%Q → (sumQ (f <$> l) == sumQ (g <$> l))%Q.
Proof.
  induction l as [| x l IH]; intros Hfg; csimpl; [reflexivity |].
  rewrite Hfg by left. rewrite IH; [reflexivity |].
  intros y Hy. apply Hfg. by right.
Qed.

Lemma sumQ_fmap_plus {A} (f g : A → Q) (l : list A) :
  (sumQ ((λ x, f x + g x) <$> l) == sumQ (f <$> l) + sumQ (g <$> l))%Q.
Proof. induction l as [| x l IH]; csimpl; [reflexivity |]. rewrite IH. ring. Qed.

Lemma sumQ_indicator_absent {K} `{EqDecision K} (k0 : K) (v : Q) (ks : list K) :
  k0 ∉ ks → (sumQ ((λ k, if decide (k = k0) then v else 0) <$> ks) == 0)%Q.
Proof.
  induction ks as [| k ks IH]; intros Hk; csimpl; [reflexivity |].
  apply not_elem_of_cons in Hk as [Hne Hk].
  rewrite decide_False by done. rewrite IH by done. ring.
Qed.

Lemma sumQ_indicator {K} `{EqDecision K} (k0 : K) (v : Q) (ks : list K) :
  NoDup ks → k0 ∈ ks →
  (sumQ ((λ k, if decide (k = k0) then v else 0) <$> ks) == v)%Q.
Proof.
  induction 1 as [| k ks Hk Hnd IH]; intros Hin; csimpl.
  - by apply elem_of_nil in Hin.
  - destruct (decide (k = k0)) as [-> | Hne].
    + rewrite sumQ_indicator_absent by done. ring.
    + apply elem_of_cons in Hin as [-> | Hin]; [done |].
      rewrite IH by done. ring.
Qed.

Section groupby.
Context {R K : Type} `{EqDecision K, Ord K}.
Implicit Types (key : R → option K) (rs : list R) (val : R → option Q).

Lemma groupby_keys key rs :
  (pd.groupby key rs).*1 = merge_sort key_le (pd.unique (omap key rs)).
Proof.
  unfold pd.groupby. rewrite <- list_fmap_compose.
  rewrite <- (list_fmap_id (merge_sort _ _)) at 2.
  by apply list_fmap_ext.
Qed.

Lemma elem_of_groupby key rs k g :
  (k, g) ∈ pd.groupby key rs ↔
  (∃ r, r ∈ rs ∧ key r = Some k) ∧ g = filter (λ r, key r = Some k) rs.
Proof.
  unfold pd.groupby. rewrite list_elem_of_fmap. split.
  - intros (k' & [= -> ->] & Hk). split; [| done].
    rewrite merge_sort_Permutation, elem_of_unique, list_elem_of_omap in Hk.
    done.
  - intros [Hk ->]. exists k. split; [done |].
    by rewrite merge_sort_Permutation, elem_of_unique, list_elem_of_omap.
Qed.

Lemma elem_of_groupby_keys key rs k :
  k ∈ (pd.groupby key rs).*1 ↔ ∃ r, r ∈ rs ∧ key r = Some k.
Proof.
  rewrite groupby_keys, merge_sort_Permutation, elem_of_unique, list_elem_of_omap.
  done.
Qed.

Lemma NoDup_groupby_keys key rs : NoDup (pd.groupby key rs).*1.
Proof. rewrite groupby_keys, merge_sort_Permutation. apply NoDup_unique. Qed.

Lemma groupby_keys_sorted `{!OrdLaws K} key rs :
  StronglySorted key_lt (pd.groupby key rs).*1.
Proof.
  apply StronglySorted_key_lt; [| apply NoDup_groupby_keys].
  rewrite groupby_keys. apply Sorted_merge_sort. apply _.
Qed.

Lemma groupby_keys_Permutation `{!OrdLaws K} key rs rs' :
  rs ≡ₚ rs' → (pd.groupby key rs).*1 = (pd.groupby key rs').*1.
Proof.
  intros Hp. rewrite !groupby_keys.
  apply (Sorted_unique key_le); [apply Sorted_merge_sort, _ .. |].
  rewrite !merge_sort_Permutation. apply unique_Permutation.
  by rewrite Hp.
Qed.

(** Summing a column group by group gives the sum over the rows whose
    key is one of the groups. *)
Lemma sumQ_by_key key val rs (ks : list K) :
  NoDup ks → Forall (λ r, ∃ k, k ∈ ks ∧ key r = Some k) rs →
  (sumQ ((λ k, sumQ (omap val (filter (λ r, key r = Some k) rs))) <$> ks)
   == sumQ (omap val rs))%Q.
Proof.
  intros Hnd. induction 1 as [| r rs (k0 & Hk0 & Hr) Hall IH].
  - induction ks as [| k ks IHks]; csimpl; [reflexivity |].
    apply NoDup_cons in Hnd as [_ Hnd]. rewrite (IHks Hnd). reflexivity.
  - rewrite (sumQ_fmap_ext _
      (λ k, (if decide (k = k0) then sumQ (omap val [r]) else 0)
            + sumQ (omap val (filter (λ r, key r = Some k) rs)))%Q).
    + rewrite sumQ_fmap_plus, IH, sumQ_indicator by done.
      change (r :: rs) with ([r] ++ rs). rewrite omap_app, sumQ_app. reflexivity.
    + intros k _. rewrite filter_cons.
      destruct (decide (key r = Some k)) as [Hk | Hk].
      * rewrite decide_True by congruence.
        change (r :: filter _ rs) with ([r] ++ filter (λ r, key r = Some k) rs).
        rewrite omap_app, sumQ_app. reflexivity.
      * rewrite decide_False by congruence. ring.
Qed.


(** When the cells add up without rounding, the sum of a group is the
    arithmetic sum of its cells. *)
Lemma groupby_group_sums key val rs :
  exact_cells (omap val rs) →
  (sumQ ((λ kg, pd.group_sum (val <$> kg.2)) <$> pd.groupby key rs)
   == sumQ ((λ kg, sumQ (omap val kg.2)) <$> pd.groupby key rs))%Q.
Proof.
  intros He. apply sumQ_fmap_ext. intros [k g] [_ ->]%elem_of_groupby. simpl.
  by apply group_sum_cells.
Qed.

End groupby.

(** ** Group summaries *)


Lemma group_summary_keys {K} `{EqDecision K, Ord K} (key : Row → option K) df :
  g_key <$> group_summary key df = (pd.groupby key (rows df)).*1.
Proof.
  unfold group_summary. rewrite <- list_fmap_compose.
  apply list_fmap_ext. by intros i [k g] _.
Qed.


(** The sales of the sample are whole numbers. *)
Lemma integer_cells_exact (zs : list Z) :
  sumZ (Z.abs <$> zs) ≤ 2 ^ 53 → exact_cells (inject_Z <$> zs).
Proof.
  intros Hb. exists 0. split; [lia |]. split.
  - apply Forall_fmap, Forall_true. intros z. exists z. simpl. ring.
  - change (2 ^ (53 + 0))%Q with (inject_Z (2 ^ 53)).
    eapply Qle_trans; [| rewrite <- Zle_Qle; exact Hb].
    clear Hb. unfold sumabs. induction zs as [| z zs IH]; csimpl; [by compute |].
    rewrite inject_Z_plus. change (Z.abs z # 1) with (inject_Z (Z.abs z)). lra.
Qed.

Lemma sample_df_exact : exact_cells (omap Sales (rows sample_df)).
Proof. apply (integer_cells_exact [100; 50; 30]). by vm_compute. Qed.




#[global] Instance Sales_le_total {K} : Total (@Sales_le K).
Proof.
  intros a b. unfold Sales_le.
  destruct (Qlt_le_dec (g_Sales b) (g_Sales a)); [right; by apply Qlt_le_weak | by left].
Qed.

Section sort_by_sales.
Context {K : Type} (quicksort : list (GroupSummary K) → list (GroupSummary K)).
Hypothesis quicksort_sorted : ∀ l, Sorted Sales_le (quicksort l).
Hypothesis quicksort_perm : ∀ l, quicksort l ≡ₚ l.

Lemma by_Sales_desc_sorted l : Sorted (flip Sales_le) (by_Sales_desc quicksort l).
Proof. unfold by_Sales_desc, pd.sort_values_desc. apply Sorted_reverse, quicksort_sorted. Qed.

Lemma by_Sales_desc_Permutation l : by_Sales_desc quicksort l ≡ₚ l.
Proof.
  unfold by_Sales_desc, pd.sort_values_desc.
  by rewrite reverse_Permutation, quicksort_perm, reverse_Permutation.
Qed.
End sort_by_sales.

(** C4, as the code has it. For every grouping dimension (category, region,
    segment, or the pair category and sub-category) the rows of the group
    summary are in strictly ascending order of the group key, they carry
    exactly the keys that occur in the frame, and their order does not depend
    on the order of the input rows. When the table is sorted by sales, for
    any sorting routine that returns its input in ascending order, the rows
    are a rearrangement of the summary in descending order of sales. *)
Theorem group_summary_order {K} `{EqDecision K, Ord K, !OrdLaws K}
    (key : Row → option K)
    (quicksort : list (GroupSummary K) → list (GroupSummary K)) (df : DataFrame) :
  (∀ l, Sorted Sales_le (quicksort l)) →
  (∀ l, quicksort l ≡ₚ l) →
  StronglySorted key_lt (g_key <$> group_summary key df) ∧
  (∀ k, k ∈ g_key <$> group_summary key df ↔ ∃ r, r ∈ rows df ∧ key r = Some k) ∧
  (∀ df', rows df' ≡ₚ rows df →
     g_key <$> group_summary key df' = g_key <$> group_summary key df) ∧
  Sorted (flip Sales_le) (by_Sales_desc quicksort (group_summary key df)) ∧
  by_Sales_desc quicksort (group_summary key df) ≡ₚ group_summary key df.
Proof.
  intros Hsorted Hperm. rewrite group_summary_keys. repeat split.
  - apply groupby_keys_sorted.
  - by apply elem_of_groupby_keys.
  - by apply elem_of_groupby_keys.
  - intros df' Hdf. rewrite group_summary_keys. by apply groupby_keys_Permutation.
  - by apply by_Sales_desc_sorted.
  - by apply by_Sales_desc_Permutation.
Qed.

Lemma group_summary_order_witness :
  StronglySorted key_lt (g_key <$> subcat_summary sample_df) ∧
  Sorted (flip Sales_le) (by_Sales_desc stable_sort (subcat_summary sample_df)).
Proof.
  destruct (group_summary_order Category_Sub_Category stable_sort sample_df)
    as (Hkeys & _ & _ & Hsales & _).
  - intros l. apply Sorted_merge_sort, _.
  - intros l. apply merge_sort_Permutation.
  - split; [exact Hkeys | exact Hsales].
Defined.

(** C4, as stated, fails: the categories of the sample first appear as
    Technology, Furniture, and the summary lists Furniture first. *)
Lemma group_summary_not_first_seen :
  first_seen_keys Category sample_df = ["Technology"; "Furniture"] ∧
  g_key <$> cat_summary sample_df = ["Furniture"; "Technology"] ∧
  g_key <$> cat_summary sample_df ≠ first_seen_keys Category sample_df.
Proof. split; [| split]; [by vm_compute .. |]. vm_compute. discriminate. Qed.

(** ** Rounding and means *)

(** [rint] moves its argument by at most one half. *)
Lemma rint_near (x : Q) :
  (x - (1 # 2) <= inject_Z (pd.rint x))%Q ∧ (inject_Z (pd.rint x) <= x + (1 # 2))%Q.
Proof.
  unfold pd.rint.
  pose proof (Qfloor_le x) as Hlo. pose proof (Qlt_floor x) as Hhi.
  rewrite inject_Z_plus in Hhi. change (inject_Z 1) with 1%Q in Hhi.
  destruct (x - inject_Z (Qfloor x) ?= 1 # 2)%Q eqn:Hc.
  - apply Qeq_alt in Hc.
    destruct (Z.even (Qfloor x)); rewrite ?inject_Z_plus; change (inject_Z 1) with 1%Q; lra.
  - apply Qlt_alt in Hc. lra.
  - apply Qgt_alt in Hc. rewrite inject_Z_plus. change (inject_Z 1) with 1%Q. lra.
Qed.



(** The mean of a group whose cells add up without rounding is their
    arithmetic mean, rounded to a double. *)
Lemma group_mean_exact (s : pd.Series Q) :
  exact_cells (pd.dropna s) → pd.group_mean s = pd.round64 <$> arith_mean (pd.dropna s).
Proof.
  intros He. unfold pd.group_mean, arith_mean.
  destruct (pd.dropna s) as [| v vs] eqn:Hs; [done |]. simpl. f_equal.
  unfold pd.f64_div. apply round64_proper.
  rewrite group_sum_exact by (by rewrite Hs). by rewrite Hs.
Qed.

(** ** Cluster summary *)

Lemma StronglySorted_Z_lt (l : list Z) : StronglySorted key_lt l → StronglySorted Z.lt l.
Proof.
  induction 1 as [| x l _ IH Hall]; constructor; [done |].
  eapply Forall_impl; [exact Hall |]. intros y [Hle Hne]. simpl in Hle. lia.
Qed.

Lemma summarize_ids (cluster_df : list ClusterTable.Row) :
  (λ sl, Summary.Cluster sl.1) <$> summarize cluster_df
  = (pd.groupby ClusterTable.Cluster cluster_df).*1.
Proof.
  unfold summarize, summary_df. rewrite <- !list_fmap_compose.
  apply list_fmap_ext. by intros i [c g] _.
Qed.

Lemma elem_of_summarize (cluster_df : list ClusterTable.Row) s lbl :
  (s, lbl) ∈ summarize cluster_df ↔
  ∃ c, (∃ r, r ∈ cluster_df ∧ ClusterTable.Cluster r = Some c) ∧
       s = agg_mean_round (c, filter (λ r, ClusterTable.Cluster r = Some c) cluster_df) ∧
       lbl = cluster_labels !! c.
Proof.
  unfold summarize, summary_df. rewrite <- list_fmap_compose, list_elem_of_fmap. split.
  - intros ([c g] & [= -> ->] & Hin). apply elem_of_groupby in Hin as [Hr ->].
    exists c. done.
  - intros (c & Hr & -> & ->).
    exists (c, filter (λ r, ClusterTable.Cluster r = Some c) cluster_df).
    split; [done |]. by apply elem_of_groupby.
Qed.

Lemma group_mean_None (s : pd.Series Q) : pd.group_mean s = None ↔ pd.dropna s = [].
Proof. unfold pd.group_mean. by destruct (pd.dropna s). Qed.




(** C10. The cluster summary has exactly one row per distinct cluster id of
    the input, and its rows are in ascending order of cluster id whatever
    the order of the input rows. *)
Theorem summarize_order (cluster_df : list ClusterTable.Row) :
  let cluster_of (sl : Summary.Row * option string) := Summary.Cluster sl.1 in
  NoDup (cluster_of <$> summarize cluster_df) ∧
  (∀ c, c ∈ cluster_of <$> summarize cluster_df ↔
        ∃ r, r ∈ cluster_df ∧ ClusterTable.Cluster r = Some c) ∧
  StronglySorted Z.lt (cluster_of <$> summarize cluster_df) ∧
  (∀ cluster_df', cluster_df' ≡ₚ cluster_df →
     cluster_of <$> summarize cluster_df' = cluster_of <$> summarize cluster_df).
Proof.
  intros cluster_of. subst cluster_of. simpl. rewrite summarize_ids.
  split; [| split; [| split]].
  - apply NoDup_groupby_keys.
  - intros c. apply elem_of_groupby_keys.
  - apply StronglySorted_Z_lt, groupby_keys_sorted.
  - intros cluster_df' Hp. rewrite summarize_ids. by apply groupby_keys_Permutation.
Qed.

Lemma summarize_order_witness :
  (λ sl : Summary.Row * option string, Summary.Cluster sl.1)
    <$> summarize (reverse sample_clusters)
  = (λ sl, Summary.Cluster sl.1) <$> summarize sample_clusters.
Proof.
  destruct (summarize_order sample_clusters) as (_ & _ & _ & Hperm).
  apply Hperm. apply reverse_Permutation.
Defined.

(** ** Monthly buckets *)

Lemma month_end_inj (i j : Z) : pd.month_end i = pd.month_end j → i = j.
Proof.
  unfold pd.month_end. intros [= Hy Hm _].
  pose proof (Z.div_mod i 12 ltac:(lia)) as Hi.
  pose proof (Z.div_mod j 12 ltac:(lia)) as Hj. lia.
Qed.

Lemma month_end_lt (i j : Z) : i < j → key_lt (pd.month_end i) (pd.month_end j).
Proof.
  intros Hij. split; [| intros Heq%month_end_inj; lia].
  unfold pd.month_end. simpl. unfold Timestamp_key, prod_le, key_lt. simpl.
  destruct (decide (i `div` 12 = j `div` 12)) as [Heq | Hne].
  - right. split; [done |]. left. cbn.
    pose proof (Z.div_mod i 12 ltac:(lia)) as Hi.
    pose proof (Z.div_mod j 12 ltac:(lia)) as Hj. split; cbn; lia.
  - left. split; [| done]. cbn. apply Z.div_le_mono; lia.
Qed.

Lemma seqZ_month_end_sorted (lo n : Z) :
  StronglySorted key_lt (pd.month_end <$> seqZ lo n).
Proof.
  remember (Z.to_nat n) as k eqn:Hk. revert lo n Hk.
  induction k as [| k IH]; intros lo n Hk.
  - rewrite seqZ_nil by lia. constructor.
  - rewrite seqZ_cons by lia. csimpl. constructor.
    + apply IH. lia.
    + rewrite Forall_fmap, Forall_forall. intros j Hj%elem_of_seqZ. simpl.
      apply month_end_lt. lia.
Qed.

Lemma foldr_min_le (i : Z) (l : list Z) :
  foldr Z.min i l ∈ i :: l ∧ ∀ x, x ∈ i :: l → foldr Z.min i l ≤ x.
Proof.
  induction l as [| y l [Hin Hle]]; simpl.
  - split; [left |]. intros x Hx%list_elem_of_singleton. lia.
  - split.
    + destruct (Z.min_spec y (foldr Z.min i l)) as [[_ ->] | [_ ->]].
      * right. left.
      * apply elem_of_cons in Hin as [-> | Hin]; [left | right; by right].
    + intros x Hx. rewrite !elem_of_cons in Hx.
      destruct Hx as [-> | [-> | Hx]].
      * specialize (Hle i (list_elem_of_here _ _)). lia.
      * lia.
      * specialize (Hle x (list_elem_of_further _ _ _ Hx)). lia.
Qed.

Lemma foldr_max_ge (i : Z) (l : list Z) :
  foldr Z.max i l ∈ i :: l ∧ ∀ x, x ∈ i :: l → x ≤ foldr Z.max i l.
Proof.
  induction l as [| y l [Hin Hle]]; simpl.
  - split; [left |]. intros x Hx%list_elem_of_singleton. lia.
  - split.
    + destruct (Z.max_spec y (foldr Z.max i l)) as [[_ ->] | [_ ->]].
      * apply elem_of_cons in Hin as [-> | Hin]; [left | right; by right].
      * right. left.
    + intros x Hx. rewrite !elem_of_cons in Hx.
      destruct Hx as [-> | [-> | Hx]].
      * specialize (Hle i (list_elem_of_here _ _)). lia.
      * lia.
      * specialize (Hle x (list_elem_of_further _ _ _ Hx)). lia.
Qed.

Section sort_stable.
Context {A : Type} (le : relation A) `{!RelDecision le}.

Lemma insert_before_Permutation (x : A) (l : list A) : pd.insert_before le x l ≡ₚ x :: l.
Proof.
  induction l as [| y l IH]; simpl; [done |].
  destruct (decide (le x y)); [done |]. by rewrite IH, Permutation_swap.
Qed.

Lemma sort_stable_Permutation (l : list A) : pd.sort_stable le l ≡ₚ l.
Proof.
  induction l as [| x l IH]; simpl; [done |].
  by rewrite insert_before_Permutation, IH.
Qed.

(** Rows that are in order stay as they are. *)
Lemma sort_stable_Sorted (l : list A) : Sorted le l → pd.sort_stable le l = l.
Proof.
  induction 1 as [| x l Hs IH Hhd]; simpl; [done |].
  rewrite IH. destruct Hhd as [| y l' Hxy]; simpl; [done |].
  by rewrite decide_True.
Qed.
End sort_stable.

Section Grouper.
Context {R : Type} (date : R → option Timestamp).
Implicit Types (rs : list R).

Lemma groupby_Grouper_M_sorted rs :
  StronglySorted key_lt (pd.groupby_Grouper_M date rs).*1.
Proof.
  unfold pd.groupby_Grouper_M. destruct (pd.month_index <$> omap date rs); [constructor |].
  rewrite <- list_fmap_compose. apply seqZ_month_end_sorted.
Qed.

Lemma elem_of_groupby_Grouper_M rs t g :
  (t, g) ∈ pd.groupby_Grouper_M date rs ↔
  ∃ j, t = pd.month_end j ∧
       (∃ a b, a ∈ pd.month_index <$> omap date rs ∧
               b ∈ pd.month_index <$> omap date rs ∧ a ≤ j ≤ b) ∧
       g = filter (λ r, pd.month_index <$> date r = Some j)
             (pd.sort_stable (pd.date_le date) rs).
Proof.
  unfold pd.groupby_Grouper_M.
  destruct (pd.month_index <$> omap date rs) as [| i rest].
  - split; [by intros ?%elem_of_nil |].
    intros (j & _ & (a & _ & Ha%elem_of_nil & _) & _). done.
  - destruct (foldr_min_le i rest) as [Hlo_in Hlo].
    destruct (foldr_max_ge i rest) as [Hhi_in Hhi].
    rewrite list_elem_of_fmap. split.
    + intros (j & [= -> ->] & Hj%elem_of_seqZ). exists j.
      split; [done |]. split; [| done].
      exists (foldr Z.min i rest), (foldr Z.max i rest). repeat split; [done | done | lia ..].
    + intros (j & -> & (a & b & Ha & Hb & Hab) & ->). exists j. split; [done |].
      apply elem_of_seqZ. specialize (Hlo a Ha). specialize (Hhi b Hb). lia.
Qed.
End Grouper.

Lemma rows_assign_Order_Month (df : DataFrame) :
  rows (assign_Order_Month df)
  = (λ r, set_Order_Month (pd.to_month_start <$> Order_Date r) r) <$> rows df.
Proof. done. Qed.

Lemma monthly_keys (df : DataFrame) :
  m_Order_Month <$> monthly df = (pd.groupby Order_Month (rows df)).*1.
Proof.
  unfold monthly. rewrite <- list_fmap_compose.
  apply list_fmap_ext. by intros i [m g] _.
Qed.

Lemma monthly_sales_labels (df : DataFrame) :
  (monthly_sales df).*1 = (pd.groupby_Grouper_M Order_Date (rows df)).*1.
Proof.
  unfold monthly_sales. rewrite <- list_fmap_compose.
  apply list_fmap_ext. by intros i [t g] _.
Qed.

Lemma elem_of_monthly_trend (df : DataFrame) (m : Timestamp) :
  m ∈ m_Order_Month <$> monthly_trend df ↔
  ∃ r, r ∈ rows df ∧ pd.to_month_start <$> Order_Date r = Some m.
Proof.
  unfold monthly_trend. rewrite monthly_keys, elem_of_groupby_keys.
  rewrite rows_assign_Order_Month. split.
  - intros (r' & (r & -> & Hr)%list_elem_of_fmap & Hm). by exists r.
  - intros (r & Hr & Hm). eexists. split; [apply list_elem_of_fmap; by exists r | done].
Qed.

Lemma elem_of_months (df : DataFrame) (a : Z) :
  a ∈ pd.month_index <$> omap Order_Date (rows df) ↔
  ∃ r, r ∈ rows df ∧ month_of r = Some a.
Proof. by rewrite list_fmap_omap, list_elem_of_omap. Qed.

Lemma elem_of_monthly_sales (df : DataFrame) (t : Timestamp) (v : Q) :
  (t, v) ∈ monthly_sales df ↔
  ∃ j, t = pd.month_end j ∧
       (∃ r1 r2 a b, r1 ∈ rows df ∧ r2 ∈ rows df ∧
                     month_of r1 = Some a ∧ month_of r2 = Some b ∧ a ≤ j ≤ b) ∧
       v = pd.group_sum (Sales <$> rows_of_month_by_date j df).
Proof.
  unfold monthly_sales. rewrite list_elem_of_fmap. split.
  - intros ([t' g] & [= -> ->] & Hin).
    apply elem_of_groupby_Grouper_M in Hin as (j & -> & (a & b & Ha & Hb & Hab) & ->).
    apply elem_of_months in Ha as (r1 & Hr1 & Ha).
    apply elem_of_months in Hb as (r2 & Hr2 & Hb).
    exists j. split; [done |]. split; [| done]. by exists r1, r2, a, b.
  - intros (j & -> & (r1 & r2 & a & b & Hr1 & Hr2 & Ha & Hb & Hab) & ->).
    exists (pd.month_end j, rows_of_month_by_date j df). split; [done |].
    apply elem_of_groupby_Grouper_M. exists j. split; [done |]. split; [| done].
    exists a, b. rewrite !elem_of_months. eauto 10.
Qed.

(** C3. The sample has records in January and March 2024 and none in
    February. The series of the Overview page has a bucket for February,
    with the value 0, where the claim has the month omitted; the series of
    the Trends page, computed from the same records, omits the month. *)
Theorem monthly_sales_zero_fills :
  try_monthly_sales sample_df
  = Returns [ (mkTimestamp 2024 1 31, 150%Q); (mkTimestamp 2024 2 29, 0%Q);
              (mkTimestamp 2024 3 31, 30%Q) ] ∧
  rows_of_month (pd.month_index (mkTimestamp 2024 2 29)) sample_df = [] ∧
  ∃ trend, try_monthly_trend sample_df = Returns trend ∧
           m_Order_Month <$> trend = [mkTimestamp 2024 1 1; mkTimestamp 2024 3 1].
Proof.
  split; [by vm_compute |]. split; [reflexivity |].
  eexists. split; [reflexivity |]. by vm_compute.
Qed.

(** ** Year filter *)

Lemma filter_fmap {A B} (P : B → Prop) `{∀ x, Decision (P x)} (f : A → B) (l : list A) :
  filter P (f <$> l) = f <$> filter (λ x, P (f x)) l.
Proof.
  induction l as [| x l IH]; [done |]. csimpl. rewrite !filter_cons, IH.
  by destruct (decide (P (f x))).
Qed.

Lemma filter_none {A} (P : A → Prop) `{∀ x, Decision (P x)} (l : list A) :
  Forall (λ x, ¬ P x) l → filter P l = [].
Proof.
  induction 1 as [| x l Hx _ IH]; [done |].
  by rewrite filter_cons, decide_False.
Qed.

Lemma rows_assign_Year (df : DataFrame) :
  rows (assign_Year df) = (λ r, set_Year (year <$> Order_Date r) r) <$> rows df.
Proof. done. Qed.

(** C7, as the code has it. On a frame that has a row,
    [filter_by_year df Y] returns exactly the rows whose order date lies in
    the calendar year [Y], in their original order (each with its [Year]
    cell filled in), and returns the empty frame, without raising, when no
    row has that year. On a frame without rows, read from a file that has
    only its header line, the year cannot be taken from the date column and
    the statement raises. *)
Theorem filter_by_year_exact (df : DataFrame) (Y : Z) :
  (rows df ≠ [] →
     ∃ d, try_filter_by_year df Y = Returns d ∧
          rows d = (λ r, set_Year (year <$> Order_Date r) r)
                     <$> filter (λ r, year <$> Order_Date r = Some Y) (rows df) ∧
          (∀ r, r ∈ rows d → year <$> Order_Date r = Some Y ∧ Year r = Some Y) ∧
          ((∀ r, r ∈ rows df → year <$> Order_Date r ≠ Some Y) → rows d = [])) ∧
  (rows df = [] → try_filter_by_year df Y = Raises AttributeError).
Proof.
  assert (rows (filter_by_year df Y)
          = (λ r, set_Year (year <$> Order_Date r) r)
              <$> filter (λ r, year <$> Order_Date r = Some Y) (rows df)) as Hrows.
  { unfold filter_by_year, filtered_df, boolean_index. simpl.
    rewrite filter_fmap. f_equal. apply list_filter_iff. intros r. simpl.
    destruct (Order_Date r) as [t |]; simpl; [| done].
    rewrite Z.eqb_eq. split; congruence. }
  unfold try_filter_by_year, dt. split; [| by intros ->].
  intros Hne. destruct (rows df) as [| r0 rs] eqn:Hdf; [done |].
  exists (filter_by_year df Y). split; [done |]. split; [exact Hrows |]. split.
  - intros r. rewrite Hrows.
    intros (r' & -> & Hr'%list_elem_of_filter)%list_elem_of_fmap.
    simpl. by destruct Hr' as [-> _].
  - intros Hnone. rewrite Hrows, filter_none; [done |].
    apply Forall_forall. intros r Hr. by apply Hnone.
Qed.

Lemma filter_by_year_exact_witness :
  ∃ d, try_filter_by_year sample_df 2023 = Returns d ∧ rows d = [].
Proof.
  destruct (filter_by_year_exact sample_df 2023) as [Hrows _].
  destruct Hrows as (d & Hd & _ & _ & Hempty); [discriminate |].
  exists d. split; [exact Hd |]. apply Hempty.
  intros r Hr. unfold sample_df in Hr. simpl in Hr.
  repeat (apply elem_of_cons in Hr as [-> | Hr]; [discriminate |]).
  by apply elem_of_nil in Hr.
Defined.

(** C7, as stated, fails on a frame without rows: no record has the year
    2024, and the result is an exception, not the empty frame. *)
Lemma filter_by_year_raises :
  rows header_only = [] ∧
  try_filter_by_year header_only 2024 = Raises AttributeError ∧
  try_filter_by_year header_only 2024 ≠ Returns (filter_by_year header_only 2024).
Proof. split; [reflexivity |]. split; [reflexivity | discriminate]. Qed.

(** ** Forecast table *)

Lemma tail_drop {A} (l : list A) (n : Z) :
  0 ≤ n → pd.tail n l = drop (length l - Z.to_nat n) l.
Proof.
  intros Hn. unfold pd.tail, pd.slice_from.
  destruct (Z.eqb_spec n 0) as [-> | Hne].
  - simpl. by rewrite Nat.sub_0_r, drop_all.
  - destruct (Z.ltb_spec (- n) 0); [| lia]. f_equal. lia.
Qed.

(** C9. For [n ≥ 0], [tail forecast n] is the last [n] rows of the table in
    their original order when the table has at least [n] rows, and the whole
    table when it has fewer. *)
Theorem tail_last_rows (forecast : list ForecastRow) (n : Z) :
  0 ≤ n →
  (n ≤ Z.of_nat (length forecast) →
     length (tail forecast n) = Z.to_nat n ∧
     ∃ front, forecast = front ++ tail forecast n) ∧
  (Z.of_nat (length forecast) < n → tail forecast n = forecast).
Proof.
  intros Hn. unfold tail. rewrite tail_drop by done. split.
  - intros Hle. split; [rewrite length_drop; lia |].
    exists (take (length forecast - Z.to_nat n) forecast). by rewrite take_drop.
  - intros Hlt. replace (length forecast - Z.to_nat n)%nat with 0%nat by lia. done.
Qed.

Lemma tail_last_rows_witness :
  tail sample_forecast 5 = sample_forecast ∧ length (tail sample_forecast 2) = 2%nat.
Proof.
  split.
  - apply (tail_last_rows sample_forecast 5); simpl; lia.
  - apply (tail_last_rows sample_forecast 2); simpl; lia.
Defined.

(** C5, as the code has it. Loading the forecast checks nothing: whatever
    the rows hold, [load_forecast] returns them all in file order and reports
    no diagnostic, and neither does the page that shows them. *)
Theorem load_forecast_unchecked (file : list ForecastRow) :
  result (load_forecast file) = file ∧
  diagnostics (load_forecast file) = [] ∧
  diagnostics (forecasting_page file) = [] ∧
  result (forecasting_page file) = tail file 5.
Proof. done. Qed.

(** C5, as stated, fails: the sample forecast breaks both invariants (the
    lower bound of its second row exceeds the point forecast, and its dates
    go backwards), and loading it reports no warning. *)
Lemma load_forecast_no_warning :
  forallb interval_ordered sample_forecast = false ∧
  dates_increasing sample_forecast = false ∧
  forecast_valid sample_forecast = false ∧
  result (load_forecast sample_forecast) = sample_forecast ∧
  ¬ (∃ d, d ∈ diagnostics (load_forecast sample_forecast) ∧ is_warning d).
Proof.
  split; [reflexivity |]. split; [reflexivity |]. split; [reflexivity |].
  split; [reflexivity |].
  intros (d & Hd & _). by apply elem_of_nil in Hd.
Qed.

(** ** The cached snapshot and the loaded frame *)

Lemma load_data_spec (src : DataFrame) (σ : Session) :
  load_data src σ
  = (length (heap σ),
     {| cache := Some (default src (cache σ));
        heap := heap σ ++ [default src (cache σ)] |}).
Proof. unfold load_data, alloc. by destruct (cache σ). Qed.

Lemma cache_run (src : DataFrame) (page : string) (y : Z) (σ : Session) :
  cache (run src page y σ) = Some (default src (cache σ)).
Proof.
  unfold run. rewrite load_data_spec. by destruct (decide (page = "Trends")).
Qed.

(** Once filled, the cache entry survives any sequence of page views. *)
Lemma cache_runs (src d : DataFrame) (views : list (string * Z)) (σ : Session) :
  cache σ = Some d → cache (runs src views σ) = Some d.
Proof.
  unfold runs. revert σ. induction views as [| [page y] views IH]; intros σ Hc; [done |].
  simpl. apply IH. by rewrite cache_run, Hc.
Qed.

Lemma trends_page_frame (d : DataFrame) (y : Z) :
  rows (trends_page d y).1
  = (λ r, set_Year (year <$> Order_Date r)
            (set_Order_Month (pd.to_month_start <$> Order_Date r) r)) <$> rows d ∧
  columns (trends_page d y).1
  = columns (assign "Year" id (assign "Order Month" id d)).
Proof.
  unfold trends_page, assign_Year, assign_Order_Month, assign. simpl.
  by rewrite <- list_fmap_compose.
Qed.

(** C6. No aggregation changes the cached dataset. Whatever page a run
    shows (KPIs and the monthly series on Overview, the monthly trend and
    the year filter on Trends, the group summaries on the other pages) and
    whatever year is selected, after the run, and after any sequence of
    runs, the cache holds the frame it held before, with the same rows and
    the same columns; a run works on a frame object of its own and leaves
    the frame objects of earlier runs as they are. *)
Theorem cached_dataset_unchanged (src d : DataFrame) (page : string) (selected_year : Z)
    (views : list (string * Z)) (σ : Session) :
  cache σ = Some d →
  cache (run src page selected_year σ) = Some d ∧
  cache (runs src views σ) = Some d ∧
  (∃ d', cache (run src page selected_year σ) = Some d' ∧
         rows d' = rows d ∧ columns d' = columns d) ∧
  (∀ l, l ≠ (load_data src σ).1 →
        heap (run src page selected_year σ) !! l = heap σ !! l).
Proof.
  intros Hc.
  assert (cache (run src page selected_year σ) = Some d) as Hrun
    by (by rewrite cache_run, Hc).
  split; [exact Hrun |]. split; [by apply cache_runs |]. split; [by exists d |].
  intros l. unfold run. rewrite load_data_spec, Hc. simpl. intros Hl.
  assert ((heap σ ++ [d]) !! l = heap σ !! l) as Happ.
  { destruct (decide (l < length (heap σ))%nat).
    - by rewrite lookup_app_l.
    - rewrite !lookup_ge_None_2; [done | lia |]. rewrite length_app. simpl. lia. }
  destruct (decide (page = "Trends")); simpl; [| done].
  by rewrite list_lookup_alter_ne.
Qed.

Lemma cached_dataset_unchanged_witness :
  cache (run sample_df "Trends" 2024 (mkSession (Some sample_df) [])) = Some sample_df ∧
  cache (runs sample_df [("Overview", 2024); ("Trends", 2024); ("Category", 2024)]
           (mkSession (Some sample_df) [])) = Some sample_df.
Proof.
  destruct (cached_dataset_unchanged sample_df sample_df "Trends" 2024
              [("Overview", 2024); ("Trends", 2024); ("Category", 2024)]
              (mkSession (Some sample_df) []) eq_refl) as (Hrun & Hruns & _).
  split; [exact Hrun | exact Hruns].
Defined.

(** The frame object a run of the Trends page works on does change: lines
    195 and 197 add two columns to it. The cached dataset is another
    object. *)
Example trends_page_writes_to_its_frame :
  ∃ d', heap (run sample_df "Trends" 2024 (mkSession (Some sample_df) [])) !! 0%nat = Some d' ∧
        columns d' = columns sample_df ++ ["Order Month"; "Year"] ∧
        cache (run sample_df "Trends" 2024 (mkSession (Some sample_df) [])) = Some sample_df.
Proof. eexists. split; [reflexivity |]. split; reflexivity. Qed.

(** ** The sample tables, evaluated *)

Example kpis_sample : kpis sample_df = mkKPIs 180 8 2 7.
Proof. reflexivity. Qed.

Example monthly_sales_sample :
  monthly_sales sample_df
  = [ (mkTimestamp 2024 1 31, 150%Q); (mkTimestamp 2024 2 29, 0%Q);
      (mkTimestamp 2024 3 31, 30%Q) ].
Proof. reflexivity. Qed.

Example monthly_trend_sample :
  monthly_trend sample_df
  = [ mkMonthly (mkTimestamp 2024 1 1) 150 5 (1 # 4);
      mkMonthly (mkTimestamp 2024 3 1) 30 3 0 ].
Proof. reflexivity. Qed.

Example subcat_summary_sample :
  subcat_summary sample_df
  = [ mkGroup ("Furniture", "Chairs") 50 (-5);
      mkGroup ("Technology", "Accessories") 30 3;
      mkGroup ("Technology", "Phones") 100 10 ].
Proof. reflexivity. Qed.

Example by_Sales_desc_sample :
  g_key <$> by_Sales_desc stable_sort (subcat_summary sample_df)
  = [ ("Technology", "Phones"); ("Furniture", "Chairs"); ("Technology", "Accessories") ].
Proof. vm_compute. reflexivity. Qed.

Example filter_by_year_sample :
  Order_ID <$> rows (filter_by_year sample_df 2024) = [Some "A"; Some "A"; Some "B"].
Proof. reflexivity. Qed.

Example tail_sample :
  ds <$> tail sample_forecast 2 = [Some "2017-12-31"; Some "2018-03-31"].
Proof. reflexivity. Qed.

(** The means 0.25, 1, 0.125 and 3 of cluster 0 and 0.375, 1, 0.1875 and
    3.5 of cluster 4, rounded: 12.5 and 37.5 go to the even neighbour. *)
Example summarize_sample :
  summarize sample_clusters
  = [ (Summary.mkRow 0 (Some (1 # 4)%Q) (Some 1%Q) (Some (pd.round64 (12 # 100)))
         (Some 3%Q),
       Some "🧾 Regular Customers");
      (Summary.mkRow 4 (Some (pd.round64 (38 # 100))) (Some 1%Q)
         (Some (pd.round64 (19 # 100))) (Some (7 # 2)%Q),
       None) ].
Proof. by vm_compute. Qed.

(** The sums of the Overview page on small tables: a left-to-right sum for
    fewer than 8 rows, and the bucket total of a compensated sum. *)
Example kpis_rounding_sample :
  total_sales (kpis rounding_df) = pd.round64 (30000000000000004 # 100000000000000000).
Proof. by vm_compute. Qed.

Example cat_summary_conservation_sample :
  g_Sales <$> cat_summary conservation_df = [pd.round64 (2 # 10); pd.round64 (11 # 10)] ∧
  total_sales (kpis conservation_df) = pd.round64 (13000000000000003 # 10000000000000000).
Proof. by vm_compute. Qed.

(** * Further properties of the script *)

(** ** KPIs *)

Lemma length_unique_from_le {A} `{EqDecision A} (seen l : list A) :
  (length (pd.unique_from seen l) ≤ length l)%nat.
Proof.
  revert seen. induction l as [| x l IH]; intros seen; simpl; [done |].
  destruct (decide (x ∈ seen)); simpl.
  - specialize (IH seen). lia.
  - specialize (IH (x :: seen)). lia.
Qed.

Lemma length_omap_le {A B} (f : A → option B) (l : list A) :
  (length (omap f l) ≤ length l)%nat.
Proof. induction l as [| x l IH]; csimpl; [done |]. destruct (f x); simpl; lia. Qed.

Lemma sumZ_Permutation (l1 l2 : list Z) : l1 ≡ₚ l2 → sumZ l1 = sumZ l2.
Proof.
  induction 1 as [| x l1 l2 _ IH | x y l | l1 l2 l3 _ IH1 _ IH2]; simpl; lia.
Qed.

(** The number of orders never exceeds the number of rows, and it is 0
    exactly when no row has an order identifier. *)
Theorem total_orders_bounds (df : DataFrame) :
  (total_orders (kpis df) ≤ length (rows df))%nat ∧
  (total_orders (kpis df) = 0%nat ↔ ∀ r, r ∈ rows df → Order_ID r = None).
Proof.
  unfold kpis, pd.nunique. simpl. rewrite dropna_fmap. split.
  - etrans; [apply length_unique_from_le | apply length_omap_le].
  - rewrite length_zero_iff_nil. split.
    + intros Hnil r Hr. destruct (Order_ID r) as [i |] eqn:Hi; [| done].
      assert (i ∈ pd.unique (omap Order_ID (rows df))) as Hin
        by (apply elem_of_unique, list_elem_of_omap; eauto).
      rewrite Hnil in Hin. by apply elem_of_nil in Hin.
    + intros Hnone. destruct (pd.unique (omap Order_ID (rows df))) as [| i l] eqn:Hu; [done |].
      assert (i ∈ pd.unique (omap Order_ID (rows df))) as Hin by (rewrite Hu; left).
      apply elem_of_unique, list_elem_of_omap in Hin as (r & Hr & Hi).
      rewrite (Hnone r Hr) in Hi. done.
Qed.

Lemma kpis_sums (df : DataFrame) :
  total_orders (kpis df) = size (list_to_set (omap Order_ID (rows df)) : gset string) ∧
  (Forall (λ r, is_Some (Quantity r)) (rows df) →
     total_quantity (kpis df) = pd.wrap64 (sumZ (omap Quantity (rows df)))) ∧
  (exact_cells (omap Sales (rows df)) →
     (total_sales (kpis df) == sumQ (omap Sales (rows df)))%Q) ∧
  (exact_cells (omap Profit (rows df)) →
     (total_profit (kpis df) == sumQ (omap Profit (rows df)))%Q).
Proof.
  unfold kpis, pd.nunique. simpl. split; [| split; [| split]].
  - by rewrite dropna_fmap, length_unique.
  - intros Hq%not_elem_of_None_fmap. by rewrite sum_int64, dropna_fmap.
  - apply sum_cells.
  - apply sum_cells.
Qed.

(** The number of orders does not depend on the order of the rows, nor
    does the total quantity when every quantity is present, nor do the
    totals of sales and of profit when the cells add up without rounding. *)
Theorem kpis_Permutation (df df' : DataFrame) :
  rows df ≡ₚ rows df' →
  total_orders (kpis df) = total_orders (kpis df') ∧
  (Forall (λ r, is_Some (Quantity r)) (rows df) →
     total_quantity (kpis df) = total_quantity (kpis df')) ∧
  (exact_cells (omap Sales (rows df)) →
     (total_sales (kpis df) == total_sales (kpis df'))%Q) ∧
  (exact_cells (omap Profit (rows df)) →
     (total_profit (kpis df) == total_profit (kpis df'))%Q).
Proof.
  intros Hp.
  destruct (kpis_sums df) as (Ho & Hq & Hs & Hpr).
  destruct (kpis_sums df') as (Ho' & Hq' & Hs' & Hpr').
  split; [| split; [| split]].
  - rewrite Ho, Ho'. f_equal. apply set_eq. intros i.
    rewrite !elem_of_list_to_set. by rewrite Hp.
  - intros Hall. rewrite Hq by done. rewrite Hq' by (by rewrite <- Hp). f_equal.
    apply sumZ_Permutation. by rewrite Hp.
  - intros He. rewrite Hs, Hs'; [apply sumQ_Permutation; by rewrite Hp | | done].
    eapply exact_cells_Permutation; [| exact He]. by rewrite Hp.
  - intros He. rewrite Hpr, Hpr'; [apply sumQ_Permutation; by rewrite Hp | | done].
    eapply exact_cells_Permutation; [| exact He]. by rewrite Hp.
Qed.

Lemma kpis_Permutation_witness :
  total_orders (kpis sample_df)
  = total_orders (kpis (mkFrame superstore_columns (reverse (rows sample_df)))) ∧
  (total_sales (kpis sample_df)
   == total_sales (kpis (mkFrame superstore_columns (reverse (rows sample_df)))))%Q.
Proof.
  destruct (kpis_Permutation sample_df
              (mkFrame superstore_columns (reverse (rows sample_df)))) as (Ho & _ & Hs & _).
  - simpl. symmetry. apply reverse_Permutation.
  - split; [exact Ho | exact (Hs sample_df_exact)].
Defined.

(** ** Group summaries, row by row *)

Section group_rows.
Context {K : Type} `{EqDecision K, Ord K}.
Implicit Types (key : Row → option K) (df : DataFrame).

Lemma elem_of_group_summary key df (g : GroupSummary K) :
  g ∈ group_summary key df ↔
  ∃ k, (∃ r, r ∈ rows df ∧ key r = Some k) ∧
       g = mkGroup k (pd.group_sum (Sales <$> filter (λ r, key r = Some k) (rows df)))
                     (pd.group_sum (Profit <$> filter (λ r, key r = Some k) (rows df))).
Proof.
  unfold group_summary. rewrite list_elem_of_fmap. split.
  - intros ([k rs] & -> & Hin). apply elem_of_groupby in Hin as [Hr ->]. by exists k.
  - intros (k & Hr & ->). exists (k, filter (λ r, key r = Some k) (rows df)).
    split; [done |]. by apply elem_of_groupby.
Qed.

Lemma length_groupby {R} (key : R → option K) (rs : list R) :
  length (pd.groupby key rs) = pd.nunique (key <$> rs).
Proof.
  unfold pd.groupby, pd.nunique. rewrite length_fmap, dropna_fmap.
  apply Permutation_length, merge_sort_Permutation.
Qed.

Lemma groupby_nil {R} (key : R → option K) (rs : list R) :
  pd.groupby key rs = [] ↔ ∀ r, r ∈ rs → key r = None.
Proof.
  split.
  - intros Hnil r Hr. destruct (key r) as [k |] eqn:Hk; [| done].
    assert (k ∈ (pd.groupby key rs).*1) as Hin by (apply elem_of_groupby_keys; eauto).
    rewrite Hnil in Hin. by apply elem_of_nil in Hin.
  - intros Hnone. destruct (pd.groupby key rs) as [| [k g] l] eqn:Hg; [done |].
    assert (k ∈ (pd.groupby key rs).*1) as Hin by (rewrite Hg; left).
    apply elem_of_groupby_keys in Hin as (r & Hr & Hk).
    rewrite (Hnone r Hr) in Hk. done.
Qed.

(** Each row of a group summary carries the compensated sums of sales
    and of profit over exactly the rows of the frame that have its key, and
    there is at least one such row; the sums are the arithmetic sums when
    the cells of the column add up without rounding. *)
Theorem group_summary_row key df (g : GroupSummary K) :
  g ∈ group_summary key df →
  let members := filter (λ r, key r = Some (g_key g)) (rows df) in
  members ≠ [] ∧
  g_Sales g = pd.group_sum (Sales <$> members) ∧
  g_Profit g = pd.group_sum (Profit <$> members) ∧
  (exact_cells (omap Sales (rows df)) → (g_Sales g == sumQ (omap Sales members))%Q) ∧
  (exact_cells (omap Profit (rows df)) → (g_Profit g == sumQ (omap Profit members))%Q).
Proof.
  intros (k & (r & Hr & Hk) & ->)%elem_of_group_summary. simpl.
  split; [| split; [done | split; [done | split]]].
  - intros Hnil.
    assert (r ∈ filter (λ r, key r = Some k) (rows df)) as Hin
      by (by apply list_elem_of_filter).
    rewrite Hnil in Hin. by apply elem_of_nil in Hin.
  - apply group_sum_cells.
  - apply group_sum_cells.
Qed.

(** A group summary has one row per distinct key, so at most as many rows
    as the frame, and it is empty exactly when no row has a key. *)
Theorem group_summary_size key df :
  length (group_summary key df) = pd.nunique (key <$> rows df) ∧
  (length (group_summary key df) ≤ length (rows df))%nat ∧
  (group_summary key df = [] ↔ ∀ r, r ∈ rows df → key r = None).
Proof.
  unfold group_summary. rewrite length_fmap, length_groupby. split; [done |]. split.
  - unfold pd.nunique. rewrite dropna_fmap.
    etrans; [apply length_unique_from_le | apply length_omap_le].
  - rewrite <- groupby_nil. split; [apply fmap_nil_inv | by intros ->].
Qed.

Lemma filter_key_is_Some key (k : K) (rs : list Row) :
  filter (λ r, key r = Some k) (filter (λ r, is_Some (key r)) rs)
  = filter (λ r, key r = Some k) rs.
Proof.
  rewrite list_filter_filter. apply list_filter_iff. intros r. split; [tauto |].
  intros Hk. split; [done |]. by rewrite Hk.
Qed.

(** When the cells add up without rounding, the sales, and the profits,
    of the rows of a group summary add up to the total over the rows of the
    frame that have a key: a row whose key is missing is counted in no
    group. *)
Theorem group_summary_totals key df :
  let keyed := filter (λ r, is_Some (key r)) (rows df) in
  (exact_cells (omap Sales (rows df)) →
     (sumQ (g_Sales <$> group_summary key df) == sumQ (omap Sales keyed))%Q) ∧
  (exact_cells (omap Profit (rows df)) →
     (sumQ (g_Profit <$> group_summary key df) == sumQ (omap Profit keyed))%Q).
Proof.
  simpl.
  assert (∀ val : Row → option Q, exact_cells (omap val (rows df)) →
    sumQ ((λ kg, pd.group_sum (val <$> kg.2)) <$> pd.groupby key (rows df))
    == sumQ (omap val (filter (λ r, is_Some (key r)) (rows df))))%Q as Hsum.
  { intros val He. rewrite groupby_group_sums by done.
    unfold pd.groupby. rewrite <- list_fmap_compose.
    rewrite (sumQ_fmap_ext _
      (λ k, sumQ (omap val (filter (λ r, key r = Some k)
                              (filter (λ r, is_Some (key r)) (rows df)))))).
    - rewrite (sumQ_Permutation _
        ((λ k, sumQ (omap val (filter (λ r, key r = Some k)
                                 (filter (λ r, is_Some (key r)) (rows df)))))
           <$> pd.unique (omap key (rows df)))).
      + apply sumQ_by_key; [apply NoDup_unique |].
        apply Forall_forall. intros r [[k Hk] Hr]%list_elem_of_filter.
        exists k. split; [| done]. rewrite elem_of_unique, list_elem_of_omap. eauto.
      + apply fmap_Permutation, merge_sort_Permutation.
    - intros k _. simpl. by rewrite filter_key_is_Some. }
  split; intros He.
  - rewrite <- (Hsum Sales He). unfold group_summary. rewrite <- list_fmap_compose.
    apply sumQ_fmap_ext. by intros [k g] _.
  - rewrite <- (Hsum Profit He). unfold group_summary. rewrite <- list_fmap_compose.
    apply sumQ_fmap_ext. by intros [k g] _.
Qed.
End group_rows.

Lemma sample_df_profit_exact : exact_cells (omap Profit (rows sample_df)).
Proof. apply (integer_cells_exact [10; -5; 3]). by vm_compute. Qed.

Lemma group_summary_row_witness :
  (50 == sumQ (omap Sales (filter (λ r, Category r = Some "Furniture") (rows sample_df))))%Q ∧
  (-5 == sumQ (omap Profit (filter (λ r, Category r = Some "Furniture") (rows sample_df))))%Q.
Proof.
  destruct (group_summary_row Category sample_df (mkGroup "Furniture" 50 (-5)))
    as (_ & _ & _ & Hs & Hp).
  - apply (list_elem_of_lookup_2 _ 0%nat). reflexivity.
  - split; [exact (Hs sample_df_exact) | exact (Hp sample_df_profit_exact)].
Defined.

Lemma group_summary_totals_witness :
  (sumQ (g_Sales <$> cat_summary sample_df) == 180)%Q.
Proof.
  destruct (group_summary_totals Category sample_df) as [Hs _].
  rewrite (Hs sample_df_exact). reflexivity.
Defined.

(** ** The tables sorted by sales *)

#[global] Instance Sales_ge_trans {K} : Transitive (flip (@Sales_le K)).
Proof. intros a b c Hab Hbc. unfold flip, Sales_le in *. exact (Qle_trans _ _ _ Hbc Hab). Qed.

(** In a table sorted by sales, a row never has smaller sales than a row
    listed after it; in particular the first row has the largest sales of
    the whole summary. *)
Theorem by_Sales_desc_ordered {K}
    (quicksort : list (GroupSummary K) → list (GroupSummary K))
    (summary : list (GroupSummary K)) :
  (∀ l, Sorted Sales_le (quicksort l)) →
  (∀ l, quicksort l ≡ₚ l) →
  (∀ i j a b, (i < j)%nat →
     by_Sales_desc quicksort summary !! i = Some a →
     by_Sales_desc quicksort summary !! j = Some b →
     (g_Sales b <= g_Sales a)%Q) ∧
  (∀ top rest, by_Sales_desc quicksort summary = top :: rest →
     ∀ g, g ∈ summary → (g_Sales g <= g_Sales top)%Q).
Proof.
  intros Hsorted Hperm.
  assert (StronglySorted (flip Sales_le) (by_Sales_desc quicksort summary)) as Hss.
  { apply Sorted_StronglySorted; [apply _ |]. by apply by_Sales_desc_sorted. }
  split.
  - intros i j a b Hij Ha Hb.
    revert i j Hij Ha Hb. induction Hss as [| x l _ IH Hall]; intros i j Hij Ha Hb.
    + by rewrite lookup_nil in Ha.
    + destruct j as [| j]; [lia |]. destruct i as [| i]; simpl in *.
      * injection Ha as ->. rewrite Forall_forall in Hall.
        apply (Hall b). by eapply list_elem_of_lookup_2.
      * apply (IH i j); [lia | done ..].
  - intros top rest Htop g Hg.
    rewrite <- (by_Sales_desc_Permutation quicksort Hperm summary), Htop in Hg.
    rewrite Htop in Hss. apply StronglySorted_inv in Hss as [_ Hall].
    apply elem_of_cons in Hg as [-> | Hg]; [apply Qle_refl |].
    rewrite Forall_forall in Hall. by apply Hall.
Qed.

Lemma by_Sales_desc_ordered_witness :
  (g_Sales (mkGroup ("Furniture", "Chairs") 50 (-5))
   <= g_Sales (mkGroup ("Technology", "Phones") 100 10))%Q.
Proof.
  destruct (by_Sales_desc_ordered stable_sort (subcat_summary sample_df)) as [_ Htop].
  - intros l. apply Sorted_merge_sort, _.
  - intros l. apply merge_sort_Permutation.
  - apply (Htop (mkGroup ("Technology", "Phones") 100 10)
             [mkGroup ("Furniture", "Chairs") 50 (-5);
              mkGroup ("Technology", "Accessories") 30 3]).
    + vm_compute. reflexivity.
    + apply (list_elem_of_lookup_2 _ 0%nat). reflexivity.
Defined.

(** ** Sub-categories within a category *)

Lemma Category_Sub_Category_Some (r : Row) (c s : string) :
  Category_Sub_Category r = Some (c, s) ↔ Category r = Some c ∧ Sub_Category r = Some s.
Proof.
  unfold Category_Sub_Category.
  destruct (Category r) as [c' |], (Sub_Category r) as [s' |]; simpl; naive_solver.
Qed.

Lemma subcat_sum_of_category (val : Row → option Q) (df : DataFrame) (c : string) :
  (∀ r, r ∈ rows df → Category r = Some c → is_Some (Sub_Category r)) →
  (sumQ ((λ kg, sumQ (omap val kg.2))
           <$> filter (λ kg, kg.1.1 = c) (pd.groupby Category_Sub_Category (rows df)))
   == sumQ (omap val (filter (λ r, Category r = Some c) (rows df))))%Q.
Proof.
  intros Hsub. unfold pd.groupby.
  rewrite filter_fmap, <- list_fmap_compose. simpl.
  set (ks := filter (λ k : string * string, k.1 = c)
               (merge_sort key_le (pd.unique (omap Category_Sub_Category (rows df))))).
  set (rs := filter (λ r, Category r = Some c) (rows df)).
  rewrite (sumQ_fmap_ext _
    (λ k, sumQ (omap val (filter (λ r, Category_Sub_Category r = Some k) rs)))).
  - apply sumQ_by_key.
    + subst ks. apply NoDup_filter. rewrite merge_sort_Permutation. apply NoDup_unique.
    + apply Forall_forall. intros r [Hc Hr]%list_elem_of_filter.
      destruct (Hsub r Hr Hc) as [s Hs]. exists (c, s).
      assert (Category_Sub_Category r = Some (c, s)) as Hcs
        by (by apply Category_Sub_Category_Some).
      split; [| done]. subst ks. apply list_elem_of_filter. split; [done |].
      rewrite merge_sort_Permutation, elem_of_unique, list_elem_of_omap. eauto.
  - intros [c' s] [Hc _]%list_elem_of_filter. simpl in Hc. subst c'. simpl.
    subst rs. rewrite list_filter_filter.
    rewrite (list_filter_iff
               (λ r, Category_Sub_Category r = Some (c, s) ∧ Category r = Some c)
               (λ r, Category_Sub_Category r = Some (c, s))); [reflexivity |].
    intros r. rewrite Category_Sub_Category_Some. tauto.
Qed.

Lemma subcat_group_sums (val : Row → option Q) (df : DataFrame) (c : string) :
  exact_cells (omap val (rows df)) →
  (sumQ ((λ kg, pd.group_sum (val <$> kg.2))
           <$> filter (λ kg, kg.1.1 = c) (pd.groupby Category_Sub_Category (rows df)))
   == sumQ ((λ kg, sumQ (omap val kg.2))
              <$> filter (λ kg, kg.1.1 = c) (pd.groupby Category_Sub_Category (rows df))))%Q.
Proof.
  intros He. apply sumQ_fmap_ext.
  intros [k g] [_ [_ ->]%elem_of_groupby]%list_elem_of_filter. simpl.
  by apply group_sum_cells.
Qed.

(** The sub-category table refines the category table when the cells add
    up without rounding: for a category all of whose rows have a
    sub-category, the sales, and the profits, of its sub-category rows add
    up to the sales, and the profit, of its row in the category summary. *)
Theorem subcat_refines_cat (df : DataFrame) (g : GroupSummary string) :
  g ∈ cat_summary df →
  (∀ r, r ∈ rows df → Category r = Some (g_key g) → is_Some (Sub_Category r)) →
  let parts := filter (λ s : GroupSummary (string * string), (g_key s).1 = g_key g)
                 (subcat_summary df) in
  (exact_cells (omap Sales (rows df)) → (sumQ (g_Sales <$> parts) == g_Sales g)%Q) ∧
  (exact_cells (omap Profit (rows df)) → (sumQ (g_Profit <$> parts) == g_Profit g)%Q).
Proof.
  intros (c & _ & ->)%elem_of_group_summary Hsub. simpl in *.
  unfold subcat_summary, group_summary.
  rewrite filter_fmap, <- !list_fmap_compose.
  split; intros He; rewrite group_sum_cells by done.
  - rewrite <- (subcat_sum_of_category Sales df c Hsub), <- subcat_group_sums by done.
    erewrite (list_filter_iff _ (λ kg : (string * string) * list Row, kg.1.1 = c)).
    + apply sumQ_fmap_ext. by intros [k rs] _.
    + by intros [k rs].
  - rewrite <- (subcat_sum_of_category Profit df c Hsub), <- subcat_group_sums by done.
    erewrite (list_filter_iff _ (λ kg : (string * string) * list Row, kg.1.1 = c)).
    + apply sumQ_fmap_ext. by intros [k rs] _.
    + by intros [k rs].
Qed.

Lemma subcat_refines_cat_witness :
  (sumQ (g_Sales <$> filter (λ s : GroupSummary (string * string),
                               (g_key s).1 = "Technology") (subcat_summary sample_df))
   == 130)%Q.
Proof.
  destruct (subcat_refines_cat sample_df (mkGroup "Technology" 130 13)) as [Hs _].
  - apply (list_elem_of_lookup_2 _ 1%nat). reflexivity.
  - unfold sample_df. simpl. intros r Hr _. revert r Hr. apply Forall_forall.
    repeat (constructor; [by eexists |]). constructor.
  - exact (Hs sample_df_exact).
Defined.

(** ** Grouping under maps and filters *)

Lemma StronglySorted_filter {A} (R : relation A) (P : A → Prop)
    `{∀ x, Decision (P x)} (l : list A) :
  StronglySorted R l → StronglySorted R (filter P l).
Proof.
  induction 1 as [| x l _ IH Hall]; [constructor |].
  rewrite filter_cons. destruct (decide (P x)); [| done].
  constructor; [done |]. rewrite Forall_forall in *.
  intros y [_ Hy]%list_elem_of_filter. by apply Hall.
Qed.

Lemma filter_iff_elem_of {A} (P1 P2 : A → Prop)
    `{∀ x, Decision (P1 x), ∀ x, Decision (P2 x)} (l : list A) :
  (∀ x, x ∈ l → (P1 x ↔ P2 x)) → filter P1 l = filter P2 l.
Proof.
  induction l as [| x l IH]; intros Hiff; [done |].
  rewrite !filter_cons, IH by (intros y Hy; apply Hiff; by right).
  destruct (decide (P1 x)) as [H1 | H1], (decide (P2 x)) as [H2 | H2]; try done.
  - exfalso. apply H2, Hiff; [left | done].
  - exfalso. apply H1, Hiff; [left | done].
Qed.

Section groupby_compose.
Context {R K : Type} `{EqDecision K, Ord K}.
Implicit Types (key : R → option K) (rs : list R) (val : R → option Q).

(** Grouping a mapped list groups the original list by the composed key. *)
Lemma groupby_fmap {R'} (f : R' → R) key (rs' : list R') :
  pd.groupby key (f <$> rs')
  = (λ kg : K * list R', (kg.1, f <$> kg.2)) <$> pd.groupby (λ r, key (f r)) rs'.
Proof.
  unfold pd.groupby. rewrite <- list_fmap_compose.
  assert (omap key (f <$> rs') = omap (λ r, key (f r)) rs') as ->.
  { induction rs' as [| r rs' IH]; [done |]. csimpl. by rewrite IH. }
  apply list_fmap_ext. intros _ k _. simpl. by rewrite filter_fmap.
Qed.

(** Filtering the rows by a condition that only depends on the key filters
    the groups. *)
Lemma groupby_filter `{!OrdLaws K} key (P : R → Prop) (Q : K → Prop)
    `{∀ r, Decision (P r), ∀ k, Decision (Q k)} rs :
  (∀ r k, r ∈ rs → key r = Some k → (P r ↔ Q k)) →
  pd.groupby key (filter P rs) = filter (λ kg, Q kg.1) (pd.groupby key rs).
Proof.
  intros HPQ. unfold pd.groupby. rewrite filter_fmap. simpl.
  assert (merge_sort key_le (pd.unique (omap key (filter P rs)))
          = filter Q (merge_sort key_le (pd.unique (omap key rs)))) as ->.
  { apply (Sorted_unique key_le).
    - apply Sorted_merge_sort, _.
    - apply StronglySorted_Sorted, StronglySorted_filter.
      apply StronglySorted_merge_sort; apply _.
    - apply NoDup_Permutation.
      + rewrite merge_sort_Permutation. apply NoDup_unique.
      + apply NoDup_filter. rewrite merge_sort_Permutation. apply NoDup_unique.
      + intros k. rewrite list_elem_of_filter, !merge_sort_Permutation, !elem_of_unique,
          !list_elem_of_omap. split.
        * intros (r & [HP Hr]%list_elem_of_filter & Hk). split; [| eauto].
          by apply (HPQ r k Hr Hk).
        * intros (HQ & r & Hr & Hk). exists r. split; [| done].
          apply list_elem_of_filter. split; [| done]. by apply (HPQ r k Hr Hk). }
  apply list_fmap_ext. intros _ k Hk%list_elem_of_lookup_2. f_equal.
  apply list_elem_of_filter in Hk as [HQ _].
  rewrite list_filter_filter.
  apply filter_iff_elem_of. intros r Hr. split; [tauto |].
  intros Hkey. split; [done |]. by apply (HPQ r k Hr Hkey).
Qed.

(** Summing a column over the groups gives its sum over the rows that have
    a key. *)
Lemma groupby_sum_keyed key val rs :
  (sumQ ((λ kg, sumQ (omap val kg.2)) <$> pd.groupby key rs)
   == sumQ (omap val (filter (λ r, is_Some (key r)) rs)))%Q.
Proof.
  unfold pd.groupby. rewrite <- list_fmap_compose.
  rewrite (sumQ_fmap_ext _
    (λ k, sumQ (omap val (filter (λ r, key r = Some k)
                            (filter (λ r, is_Some (key r)) rs))))).
  - rewrite (sumQ_Permutation _
      ((λ k, sumQ (omap val (filter (λ r, key r = Some k)
                               (filter (λ r, is_Some (key r)) rs))))
         <$> pd.unique (omap key rs))).
    + apply sumQ_by_key; [apply NoDup_unique |].
      apply Forall_forall. intros r [[k Hk] Hr]%list_elem_of_filter.
      exists k. split; [| done]. rewrite elem_of_unique, list_elem_of_omap. eauto.
    + apply fmap_Permutation, merge_sort_Permutation.
  - intros k _. simpl. rewrite list_filter_filter.
    rewrite (list_filter_iff (λ r, key r = Some k ∧ is_Some (key r))
               (λ r, key r = Some k)); [reflexivity |].
    intros r. split; [tauto |]. intros Hk. split; [done |]. by rewrite Hk.
Qed.
End groupby_compose.

(** ** The monthly trend of the Trends page *)

Lemma groupby_ext {R K} `{EqDecision K, Ord K} (key key' : R → option K) (rs : list R) :
  (∀ r, key r = key' r) → pd.groupby key rs = pd.groupby key' rs.
Proof.
  intros Hext. unfold pd.groupby.
  rewrite (list_omap_ext key key' rs rs) by (apply Forall2_same_length_lookup_2; [done |];
    intros i x y Hx Hy; rewrite Hx in Hy; injection Hy as ->; apply Hext).
  apply list_fmap_ext. intros _ k _. f_equal.
  apply list_filter_iff. intros r. by rewrite Hext.
Qed.

Lemma elem_of_monthly (d : DataFrame) (m : MonthlyRow) :
  m ∈ monthly d ↔
  ∃ k, (∃ r, r ∈ rows d ∧ Order_Month r = Some k) ∧
       m = mkMonthly k
             (pd.group_sum (Sales <$> filter (λ r, Order_Month r = Some k) (rows d)))
             (pd.group_sum (Profit <$> filter (λ r, Order_Month r = Some k) (rows d)))
             (pd.group_sum (Discount <$> filter (λ r, Order_Month r = Some k) (rows d))).
Proof.
  unfold monthly. rewrite list_elem_of_fmap. split.
  - intros ([k rs] & -> & Hin). apply elem_of_groupby in Hin as [Hr ->]. by exists k.
  - intros (k & Hr & ->). exists (k, filter (λ r, Order_Month r = Some k) (rows d)).
    split; [done |]. by apply elem_of_groupby.
Qed.

(** The monthly table only looks at the month, sales, profit and discount
    cells of the rows. *)
Lemma monthly_fmap (f : Row → Row) (d d' : DataFrame) :
  rows d' = f <$> rows d →
  (∀ r, Order_Month (f r) = Order_Month r ∧ Sales (f r) = Sales r ∧
        Profit (f r) = Profit r ∧ Discount (f r) = Discount r) →
  monthly d' = monthly d.
Proof.
  intros Hrows Hf. unfold monthly. rewrite Hrows, groupby_fmap.
  rewrite (groupby_ext (λ r, Order_Month (f r)) Order_Month) by (intros r; apply Hf).
  rewrite <- list_fmap_compose. apply list_fmap_ext. intros _ [k g] _. simpl.
  rewrite <- !list_fmap_compose.
  rewrite (list_fmap_ext (Sales ∘ f) Sales g) by (intros _ r _; apply Hf).
  rewrite (list_fmap_ext (Profit ∘ f) Profit g) by (intros _ r _; apply Hf).
  rewrite (list_fmap_ext (Discount ∘ f) Discount g) by (intros _ r _; apply Hf).
  done.
Qed.

Lemma try_monthly_trend_Returns (df : DataFrame) :
  rows df ≠ [] → try_monthly_trend df = Returns (monthly_trend df).
Proof. unfold try_monthly_trend, dt. by destruct (rows df). Qed.

Lemma omap_assign_Order_Month (val : Row → option Q) (df : DataFrame) :
  (∀ r v, val (set_Order_Month v r) = val r) →
  omap val (rows (assign_Order_Month df)) = omap val (rows df).
Proof.
  intros Hval. rewrite rows_assign_Order_Month, <- !dropna_fmap, <- list_fmap_compose.
  f_equal. apply list_fmap_ext. intros _ r _. apply Hval.
Qed.

(** Each row of the monthly trend, which the page computes without raising
    when it has one, carries the compensated sums of sales, profit and
    discount over exactly the rows of the frame whose order date lies in its
    month, and there is at least one such row; the sums are the arithmetic
    sums when the cells of the column add up without rounding. *)
Theorem monthly_trend_row (df : DataFrame) (m : MonthlyRow) :
  m ∈ monthly_trend df →
  let members :=
    filter (λ r, pd.to_month_start <$> Order_Date r = Some (m_Order_Month m)) (rows df) in
  members ≠ [] ∧
  try_monthly_trend df = Returns (monthly_trend df) ∧
  m_Sales m = pd.group_sum (Sales <$> members) ∧
  m_Profit m = pd.group_sum (Profit <$> members) ∧
  m_Discount m = pd.group_sum (Discount <$> members) ∧
  (exact_cells (omap Sales (rows df)) → (m_Sales m == sumQ (omap Sales members))%Q) ∧
  (exact_cells (omap Profit (rows df)) → (m_Profit m == sumQ (omap Profit members))%Q) ∧
  (exact_cells (omap Discount (rows df)) →
     (m_Discount m == sumQ (omap Discount members))%Q).
Proof.
  unfold monthly_trend at 1.
  intros (k & (r' & Hr' & Hk) & ->)%elem_of_monthly. simpl.
  rewrite rows_assign_Order_Month in *. rewrite filter_fmap. simpl.
  rewrite <- !list_fmap_compose.
  apply list_elem_of_fmap in Hr' as (r & -> & Hr). simpl in Hk.
  assert (filter (λ r, pd.to_month_start <$> Order_Date r = Some k) (rows df) ≠ []) as Hne.
  { intros Hnil.
    assert (r ∈ filter (λ r, pd.to_month_start <$> Order_Date r = Some k) (rows df)) as Hin
      by (by apply list_elem_of_filter).
    rewrite Hnil in Hin. by apply elem_of_nil in Hin. }
  split; [exact Hne |]. split.
  { apply try_monthly_trend_Returns. intros Hnil. rewrite Hnil in Hr.
    by apply elem_of_nil in Hr. }
  split; [done |]. split; [done |]. split; [done |].
  split; [| split]; apply (group_sum_cells _ _ (rows df)).
Qed.

Lemma sample_df_discount_exact : exact_cells (omap Discount (rows sample_df)).
Proof.
  exists (-2). split; [lia |]. split; [| by vm_compute].
  repeat constructor; [by exists 0 | by exists 1 | by exists 0].
Qed.

Lemma monthly_trend_row_witness :
  (30 == sumQ (omap Sales
                 (filter (λ r, pd.to_month_start <$> Order_Date r
                               = Some (mkTimestamp 2024 3 1)) (rows sample_df))))%Q.
Proof.
  destruct (monthly_trend_row sample_df (mkMonthly (mkTimestamp 2024 3 1) 30 3 0))
    as (_ & _ & _ & _ & _ & Hs & _).
  - apply (list_elem_of_lookup_2 _ 1%nat). reflexivity.
  - exact (Hs sample_df_exact).
Defined.

(** On a frame that has a row the monthly trend is computed without
    raising and, when the cells add up without rounding, its sales add up
    to the total sales of the rows that have an order date, and likewise for
    profit and discount. *)
Theorem monthly_trend_totals (df : DataFrame) :
  rows df ≠ [] →
  let dated := filter (λ r, is_Some (Order_Date r)) (rows df) in
  ∃ trend, try_monthly_trend df = Returns trend ∧
    (exact_cells (omap Sales (rows df)) →
       (sumQ (m_Sales <$> trend) == sumQ (omap Sales dated))%Q) ∧
    (exact_cells (omap Profit (rows df)) →
       (sumQ (m_Profit <$> trend) == sumQ (omap Profit dated))%Q) ∧
    (exact_cells (omap Discount (rows df)) →
       (sumQ (m_Discount <$> trend) == sumQ (omap Discount dated))%Q).
Proof.
  intros Hne. simpl. exists (monthly_trend df).
  split; [by apply try_monthly_trend_Returns |].
  assert (∀ (val : Row → option Q) (col : MonthlyRow → Q),
    (∀ r v, val (set_Order_Month v r) = val r) →
    (∀ k g, col (mkMonthly k (pd.group_sum (Sales <$> g)) (pd.group_sum (Profit <$> g))
                   (pd.group_sum (Discount <$> g))) = pd.group_sum (val <$> g)) →
    exact_cells (omap val (rows df)) →
    sumQ (col <$> monthly_trend df)
    == sumQ (omap val (filter (λ r, is_Some (Order_Date r)) (rows df))))%Q as Hsum.
  { intros val col Hval Hcol He. unfold monthly_trend, monthly.
    rewrite <- list_fmap_compose.
    rewrite (list_fmap_ext _ (λ kg, pd.group_sum (val <$> kg.2))
               (pd.groupby Order_Month (rows (assign_Order_Month df))))
      by (intros _ [k g] _; apply Hcol).
    rewrite groupby_group_sums by (by rewrite omap_assign_Order_Month).
    rewrite groupby_sum_keyed, rows_assign_Order_Month, filter_fmap. simpl.
    rewrite (list_filter_iff (λ r, is_Some (pd.to_month_start <$> Order_Date r))
               (λ r, is_Some (Order_Date r)))
      by (intros r; by rewrite fmap_is_Some).
    rewrite <- !dropna_fmap, <- list_fmap_compose.
    erewrite list_fmap_ext; [reflexivity |]. intros _ r _. apply Hval. }
  split; [| split]; apply Hsum; done.
Qed.

Lemma monthly_trend_totals_witness :
  ∃ trend, try_monthly_trend sample_df = Returns trend ∧
           (sumQ (m_Sales <$> trend) == 180)%Q.
Proof.
  destruct (monthly_trend_totals sample_df) as (trend & Htrend & Hs & _); [discriminate |].
  exists trend. split; [exact Htrend |]. rewrite (Hs sample_df_exact). reflexivity.
Defined.

(** On the Trends page, the trend of the selected year is the part of the
    trend over all years whose months lie in that year. *)
Theorem trends_page_year_slice (df : DataFrame) (selected_year : Z) :
  (trends_page df selected_year).2.2
  = filter (λ m, year (m_Order_Month m) = selected_year)
      (trends_page df selected_year).2.1.
Proof.
  unfold trends_page. simpl.
  set (df1 := assign_Order_Month df).
  set (P := λ r : Row, year <$> Order_Date r = Some selected_year).
  rewrite (monthly_fmap (λ r, set_Year (year <$> Order_Date r) r)
             (mkFrame (columns df1) (filter P (rows df1)))).
  - unfold monthly at 1. simpl.
    rewrite (groupby_filter Order_Month P (λ k, year k = selected_year)).
    + unfold monthly. rewrite filter_fmap. f_equal.
      apply list_filter_iff. by intros [k g].
    + intros r' k Hr' Hk. subst df1 P. rewrite ?rows_assign_Order_Month in Hr'.
      apply list_elem_of_fmap in Hr' as (r & -> & Hr). simpl in *.
      destruct (Order_Date r) as [t |]; simpl in *; [| done].
      injection Hk as <-. simpl. split; congruence.
  - simpl. rewrite filter_fmap. f_equal. apply list_filter_iff. intros r. subst P. simpl.
    destruct (Order_Date r) as [t |]; simpl; [| done].
    rewrite Z.eqb_eq. split; congruence.
  - done.
Qed.

(** ** The monthly series of the Overview page *)

(** The label of a bin is a calendar date in the month with the bin's
    index: [month_index] undoes [month_end], the month lies between 1 and
    12 and the day between 28 and 31. *)
Theorem month_end_calendar (j : Z) :
  pd.month_index (pd.month_end j) = j ∧
  1 ≤ month (pd.month_end j) ≤ 12 ∧
  28 ≤ day (pd.month_end j) ≤ 31.
Proof.
  unfold pd.month_index, pd.month_end, pd.days_in_month. simpl.
  pose proof (Z.div_mod j 12 ltac:(lia)) as Hj.
  pose proof (Z.mod_pos_bound j 12 ltac:(lia)) as Hm.
  split; [lia |]. split; [lia |].
  destruct (_ =? 2); [destruct (pd.is_leap _); lia |].
  destruct (_ || _); lia.
Qed.

(** For a date with a month between 1 and 12, the bin of its month is
    labelled with the last day of that very month. *)
Lemma month_end_of_date (t : Timestamp) :
  1 ≤ month t ≤ 12 →
  pd.month_end (pd.month_index t)
  = mkTimestamp (year t) (month t) (pd.days_in_month (year t) (month t)).
Proof.
  intros Hm. unfold pd.month_end, pd.month_index.
  assert ((12 * year t + (month t - 1)) `div` 12 = year t) as ->
    by (symmetry; apply (Z.div_unique _ 12 (year t) (month t - 1)); lia).
  assert ((12 * year t + (month t - 1)) `mod` 12 = month t - 1) as ->
    by (symmetry; apply (Z.mod_unique _ 12 (year t) (month t - 1)); lia).
  by replace (month t - 1 + 1) with (month t) by lia.
Qed.

Lemma monthly_sales_seq (df : DataFrame) (i : Z) (rest : list Z) :
  pd.month_index <$> omap Order_Date (rows df) = i :: rest →
  monthly_sales df
  = (λ j, (pd.month_end j, pd.group_sum (Sales <$> rows_of_month_by_date j df)))
      <$> seqZ (foldr Z.min i rest) (foldr Z.max i rest - foldr Z.min i rest + 1).
Proof.
  intros Hidx. unfold monthly_sales, pd.groupby_Grouper_M. rewrite Hidx.
  by rewrite <- list_fmap_compose.
Qed.

Lemma monthly_sales_dated (df : DataFrame) (i : Z) (rest : list Z) :
  pd.month_index <$> omap Order_Date (rows df) = i :: rest →
  monthly_sales df ≠ [] ∧
  (∀ k b1 b2, monthly_sales df !! k = Some b1 → monthly_sales df !! S k = Some b2 →
     ∃ j, b1.1 = pd.month_end j ∧ b2.1 = pd.month_end (j + 1)) ∧
  (exact_cells (omap Sales (rows df)) →
     (sumQ (snd <$> monthly_sales df)
      == sumQ (omap Sales (filter (λ r, is_Some (Order_Date r)) (rows df))))%Q).
Proof.
  intros Hidx. rewrite (monthly_sales_seq df i rest Hidx).
  destruct (foldr_min_le i rest) as [Hlo_in Hlo].
  destruct (foldr_max_ge i rest) as [Hhi_in Hhi].
  set (lo := foldr Z.min i rest) in *. set (hi := foldr Z.max i rest) in *.
  assert (lo ≤ hi) as Hlohi by (apply Hlo; done).
  split; [| split].
  - intros Hnil%fmap_nil_inv. rewrite seqZ_cons in Hnil by lia. done.
  - intros k b1 b2. rewrite !list_lookup_fmap.
    intros (j1 & Hj1 & ->)%fmap_Some (j2 & Hj2 & ->)%fmap_Some. simpl.
    apply lookup_seqZ in Hj1 as [-> _]. apply lookup_seqZ in Hj2 as [-> _].
    exists (lo + Z.of_nat k). split; [done |]. f_equal. lia.
  - intros He. rewrite <- list_fmap_compose.
    rewrite (sumQ_fmap_ext _
      (λ j, sumQ (omap Sales (filter (λ r, month_of r = Some j)
                                (filter (λ r, is_Some (Order_Date r)) (rows df)))))).
    + apply sumQ_by_key; [apply NoDup_seqZ |].
      apply Forall_forall. intros r [[t Ht] Hr]%list_elem_of_filter.
      exists (pd.month_index t). split; [| unfold month_of; by rewrite Ht].
      assert (pd.month_index t ∈ i :: rest) as Hin.
      { rewrite <- Hidx. apply elem_of_months. exists r. unfold month_of.
        by rewrite Ht. }
      apply elem_of_seqZ. specialize (Hlo _ Hin). specialize (Hhi _ Hin). lia.
    + intros j _. simpl. unfold rows_of_month_by_date.
      rewrite group_sum_cells
        by (eapply exact_cells_Permutation; [| exact He];
            by rewrite sort_stable_Permutation).
      rewrite (sumQ_Permutation _
                 (omap Sales (filter (λ r, month_of r = Some j) (rows df))))
        by (by rewrite sort_stable_Permutation).
      rewrite list_filter_filter.
      rewrite (list_filter_iff (λ r, month_of r = Some j ∧ is_Some (Order_Date r))
                 (λ r, month_of r = Some j)); [reflexivity |].
      intros r. split; [tauto |]. intros Hm. split; [done |].
      unfold month_of in Hm. by destruct (Order_Date r).
Qed.

(** The statement of the Overview series raises when no row has an order
    date: a [TypeError] on a frame without rows, an [AttributeError] on a
    frame whose rows all lack the date. When some row has an order date it
    returns a series that is not empty and whose buckets are consecutive
    calendar months; when the sales add up without rounding, its values add
    up to the total sales of the rows that have an order date. *)
Theorem monthly_sales_buckets (df : DataFrame) :
  (rows df = [] → try_monthly_sales df = Raises TypeError) ∧
  (rows df ≠ [] → (∀ r, r ∈ rows df → Order_Date r = None) →
     try_monthly_sales df = Raises AttributeError) ∧
  ((∃ r, r ∈ rows df ∧ is_Some (Order_Date r)) →
     ∃ series, try_monthly_sales df = Returns series ∧ series ≠ [] ∧
       (∀ k b1 b2, series !! k = Some b1 → series !! S k = Some b2 →
          ∃ j, b1.1 = pd.month_end j ∧ b2.1 = pd.month_end (j + 1)) ∧
       (exact_cells (omap Sales (rows df)) →
          (sumQ (snd <$> series)
           == sumQ (omap Sales (filter (λ r, is_Some (Order_Date r)) (rows df))))%Q)).
Proof.
  unfold try_monthly_sales. split; [by intros -> |]. split.
  - intros Hne Hnone. destruct (rows df) as [| r0 rs] eqn:Hdf; [done |].
    destruct (omap Order_Date (r0 :: rs)) as [| t ts] eqn:Hd; [done |].
    assert (t ∈ omap Order_Date (r0 :: rs)) as Hin by (rewrite Hd; left).
    apply list_elem_of_omap in Hin as (r & Hr & Ht). by rewrite (Hnone r Hr) in Ht.
  - intros (r & Hr & [t Ht]).
    destruct (omap Order_Date (rows df)) as [| t0 ts] eqn:Hd.
    { assert (t ∈ omap Order_Date (rows df)) as Hin
        by (apply list_elem_of_omap; eauto).
      rewrite Hd in Hin. by apply elem_of_nil in Hin. }
    exists (monthly_sales df). split.
    { destruct (rows df) as [| r0 rs]; [by apply elem_of_nil in Hr | done]. }
    apply (monthly_sales_dated df (pd.month_index t0) (pd.month_index <$> ts)).
    by rewrite Hd.
Qed.

Lemma monthly_sales_buckets_witness :
  ∃ series, try_monthly_sales sample_df = Returns series ∧ (sumQ (snd <$> series) == 180)%Q.
Proof.
  destruct (monthly_sales_buckets sample_df) as (_ & _ & Hdated).
  destruct Hdated as (series & Hs & _ & _ & Hsum).
  - eexists. split; [apply list_elem_of_here | by eexists].
  - exists series. split; [exact Hs |]. rewrite (Hsum sample_df_exact). reflexivity.
Defined.

Lemma month_index_inj (t t' : Timestamp) :
  1 ≤ month t ≤ 12 → 1 ≤ month t' ≤ 12 →
  pd.month_index t = pd.month_index t' → pd.to_month_start t = pd.to_month_start t'.
Proof.
  unfold pd.month_index, pd.to_month_start. intros Hm Hm' Heq.
  assert (year t = year t') by lia. assert (month t = month t') by lia.
  congruence.
Qed.

(** The results of [float64] operations are fractions in lowest terms, so
    two of them that are equal as numbers are the same. *)
Lemma round64_canonical (x : Q) : Qred (pd.round64 x) = pd.round64 x.
Proof.
  unfold pd.round64. destruct (Qeq_bool (Qred x) 0); [done |].
  apply Qred_complete, Qred_correct.
Qed.

Lemma group_sum_canonical (s : pd.Series Q) : Qred (pd.group_sum s) = pd.group_sum s.
Proof.
  unfold pd.group_sum.
  assert (∀ st : Q * Q, Qred st.1 = st.1 →
    Qred (fold_left (λ st c, match c with Some v => pd.kahan_add st v | None => st end)
            s st).1
    = (fold_left (λ st c, match c with Some v => pd.kahan_add st v | None => st end)
         s st).1) as Hfold; [| by apply Hfold].
  induction s as [| [v |] s IH]; intros st Hst; simpl; [done | | by apply IH].
  apply IH. simpl. apply round64_canonical.
Qed.

Lemma group_sum_Permutation {A} (val : A → option Q) (l l' : list A) :
  exact_cells (omap val l) → l ≡ₚ l' →
  pd.group_sum (val <$> l) = pd.group_sum (val <$> l').
Proof.
  intros He Hp.
  rewrite <- (group_sum_canonical (val <$> l)), <- (group_sum_canonical (val <$> l')).
  apply Qred_complete.
  rewrite !group_sum_exact, !dropna_fmap.
  - apply sumQ_Permutation. by rewrite Hp.
  - rewrite dropna_fmap. eapply exact_cells_Permutation; [| exact He]. by rewrite Hp.
  - by rewrite dropna_fmap.
Qed.

(** The two monthly series agree wherever the Trends series has a row,
    provided the rows of the frame are in the order of their dates or the
    sales add up without rounding: when the order dates have months between
    1 and 12, every row of the Trends series then has a bucket in the
    Overview series, labelled with the last day of the same month and
    holding the same sales value. *)
Theorem monthly_sales_agrees_with_trend (df : DataFrame) (m : MonthlyRow) :
  (∀ r t, r ∈ rows df → Order_Date r = Some t → 1 ≤ month t ≤ 12) →
  Sorted (pd.date_le Order_Date) (rows df) ∨ exact_cells (omap Sales (rows df)) →
  m ∈ monthly_trend df →
  (mkTimestamp (year (m_Order_Month m)) (month (m_Order_Month m))
     (pd.days_in_month (year (m_Order_Month m)) (month (m_Order_Month m))),
   m_Sales m) ∈ monthly_sales df.
Proof.
  intros Hvalid Horder. unfold monthly_trend.
  intros (k & (r' & Hr' & Hk) & ->)%elem_of_monthly. simpl.
  rewrite rows_assign_Order_Month in *.
  apply list_elem_of_fmap in Hr' as (r & -> & Hr). simpl in Hk.
  destruct (Order_Date r) as [t |] eqn:Ht; [| done]. injection Hk as <-. simpl.
  pose proof (Hvalid r t Hr Ht) as Hm.
  apply elem_of_monthly_sales. exists (pd.month_index t).
  split; [by rewrite month_end_of_date |]. split.
  - exists r, r, (pd.month_index t), (pd.month_index t).
    unfold month_of. rewrite Ht. simpl. repeat split; [done | done | lia ..].
  - rewrite filter_fmap, <- list_fmap_compose.
    rewrite (filter_iff_elem_of _ (λ r, month_of r = Some (pd.month_index t))).
    + rewrite (list_fmap_ext _ Sales) by done.
      unfold rows_of_month_by_date. destruct Horder as [Hsorted | Hexact].
      * by rewrite sort_stable_Sorted.
      * apply group_sum_Permutation; [by apply exact_cells_filter |].
        by rewrite sort_stable_Permutation.
    + intros r0 Hr0. simpl. unfold month_of.
      destruct (Order_Date r0) as [t0 |] eqn:Ht0; simpl; [| done].
      split.
      * intros Heq.
        assert (year t0 = year t ∧ month t0 = month t) as [Hy Hmo]
          by (unfold pd.to_month_start in Heq; split; congruence).
        unfold pd.month_index. by rewrite Hy, Hmo.
      * intros [= Heq]. f_equal.
        apply month_index_inj; [by eapply Hvalid | done | done].
Qed.

Lemma monthly_sales_agrees_with_trend_witness :
  (mkTimestamp 2024 1 31, 150%Q) ∈ monthly_sales sample_df.
Proof.
  apply (monthly_sales_agrees_with_trend sample_df
           (mkMonthly (mkTimestamp 2024 1 1) 150 5 (1 # 4))).
  - intros r t Hr. revert r Hr t.
    apply (proj1 (Forall_forall (λ r, ∀ t, Order_Date r = Some t → 1 ≤ month t ≤ 12) _)).
    unfold sample_df. simpl.
    repeat (constructor; [intros t [= <-]; simpl; lia |]). constructor.
  - right. exact sample_df_exact.
  - apply (list_elem_of_lookup_2 _ 0%nat). reflexivity.
Defined.

(** Without either condition the two series can differ in the last place:
    a month with the sales 0.1, 1.1 and 0.1 on the 20th, the 5th and the 6th
    has one total on the Trends page, added in file order, and another on
    the Overview page, added in the order of the dates. *)
Example monthly_series_differ :
  m_Sales <$> monthly_trend unsorted_df
  = [pd.round64 (13000000000000003 # 10000000000000000)] ∧
  monthly_sales unsorted_df = [(mkTimestamp 2024 1 31, pd.round64 (13 # 10))].
Proof. by vm_compute. Qed.

(** ** The year filter, once more *)

Lemma rows_filter_by_year (df : DataFrame) (Y : Z) :
  rows (filter_by_year df Y)
  = (λ r, set_Year (year <$> Order_Date r) r)
      <$> filter (λ r, year <$> Order_Date r = Some Y) (rows df).
Proof.
  unfold filter_by_year, filtered_df, boolean_index. simpl.
  rewrite filter_fmap. f_equal. apply list_filter_iff. intros r. simpl.
  destruct (Order_Date r) as [t |]; simpl; [| done].
  rewrite Z.eqb_eq. split; congruence.
Qed.

Lemma columns_filter_by_year (df : DataFrame) (Y : Z) :
  columns (filter_by_year df Y)
  = if decide ("Year" ∈ columns df) then columns df else columns df ++ ["Year"].
Proof. done. Qed.

(** The year filter yields rows exactly when some row has the year; applied
    again with the same year it changes nothing, and with another year it
    leaves no row. *)
Theorem filter_by_year_again (df : DataFrame) (Y Y' : Z) :
  (rows (filter_by_year df Y) ≠ [] ↔
     ∃ r, r ∈ rows df ∧ year <$> Order_Date r = Some Y) ∧
  filter_by_year (filter_by_year df Y) Y = filter_by_year df Y ∧
  (Y ≠ Y' → rows (filter_by_year (filter_by_year df Y) Y') = []).
Proof.
  split; [| split].
  - rewrite rows_filter_by_year. split.
    + intros Hne.
      destruct (filter (λ r, year <$> Order_Date r = Some Y) (rows df)) as [| r l] eqn:Hf;
        [done |].
      assert (r ∈ filter (λ r, year <$> Order_Date r = Some Y) (rows df)) as Hin
        by (rewrite Hf; left).
      apply list_elem_of_filter in Hin as [HY Hr]. eauto.
    + intros (r & Hr & HY) Hnil%fmap_nil_inv.
      assert (r ∈ filter (λ r, year <$> Order_Date r = Some Y) (rows df)) as Hin
        by (by apply list_elem_of_filter).
      rewrite Hnil in Hin. by apply elem_of_nil in Hin.
  - assert (rows (filter_by_year (filter_by_year df Y) Y) = rows (filter_by_year df Y))
      as Hrows.
    { rewrite (rows_filter_by_year (filter_by_year df Y)), rows_filter_by_year.
      rewrite filter_fmap, <- list_fmap_compose. simpl.
      rewrite list_filter_filter.
      rewrite (list_filter_iff
                 (λ r, year <$> Order_Date r = Some Y ∧ year <$> Order_Date r = Some Y)
                 (λ r, year <$> Order_Date r = Some Y)) by (intros r; tauto).
      by apply list_fmap_ext. }
    assert (columns (filter_by_year (filter_by_year df Y) Y) = columns (filter_by_year df Y))
      as Hcols.
    { rewrite (columns_filter_by_year (filter_by_year df Y)), columns_filter_by_year.
      destruct (decide ("Year" ∈ columns df)) as [Hin | Hin].
      - by rewrite decide_True.
      - rewrite decide_True; [done |]. apply elem_of_app. right. left. }
    destruct (filter_by_year (filter_by_year df Y) Y), (filter_by_year df Y).
    simpl in *. by subst.
  - intros Hne. rewrite (rows_filter_by_year (filter_by_year df Y)), rows_filter_by_year.
    rewrite filter_fmap. simpl. rewrite list_filter_filter, filter_none; [done |].
    apply Forall_forall. intros r _ [H1 H2]. congruence.
Qed.

(** ** The long form of the monthly table *)

Lemma melt_blocks (monthly : list MonthlyRow) :
  melt monthly
  = ((λ m, mkMelted (m_Order_Month m) "Sales" (m_Sales m)) <$> monthly)
    ++ ((λ m, mkMelted (m_Order_Month m) "Profit" (m_Profit m)) <$> monthly)
    ++ ((λ m, mkMelted (m_Order_Month m) "Discount" (m_Discount m)) <$> monthly).
Proof. unfold melt, value_vars. simpl. by rewrite app_nil_r. Qed.

(** Melting stacks the three value columns: the long table has three rows
    for each row of the monthly table, the values of the [i]-th row at the
    positions [i], [n + i] and [2 n + i] for a table of [n] rows, and it has
    no other rows. *)
Theorem melt_layout (monthly : list MonthlyRow) :
  let n := length monthly in
  length (melt monthly) = (3 * n)%nat ∧
  (∀ i m, monthly !! i = Some m →
     melt monthly !! i = Some (mkMelted (m_Order_Month m) "Sales" (m_Sales m)) ∧
     melt monthly !! (n + i)%nat
       = Some (mkMelted (m_Order_Month m) "Profit" (m_Profit m)) ∧
     melt monthly !! (2 * n + i)%nat
       = Some (mkMelted (m_Order_Month m) "Discount" (m_Discount m))) ∧
  (∀ l, l ∈ melt monthly →
     ∃ m, m ∈ monthly ∧ l_Order_Month l = m_Order_Month m ∧
          ((l_Metric l = "Sales" ∧ l_Value l = m_Sales m) ∨
           (l_Metric l = "Profit" ∧ l_Value l = m_Profit m) ∨
           (l_Metric l = "Discount" ∧ l_Value l = m_Discount m))).
Proof.
  cbv zeta. rewrite melt_blocks. split; [| split].
  - rewrite !length_app, !length_fmap. lia.
  - intros i m Hm. pose proof (lookup_lt_Some _ _ _ Hm) as Hi.
    split; [| split].
    + rewrite lookup_app_l by (rewrite length_fmap; lia).
      by rewrite list_lookup_fmap, Hm.
    + rewrite lookup_app_r by (rewrite length_fmap; lia).
      rewrite lookup_app_l by (rewrite !length_fmap; lia).
      rewrite length_fmap. replace (length monthly + i - length monthly)%nat with i by lia.
      by rewrite list_lookup_fmap, Hm.
    + rewrite lookup_app_r by (rewrite length_fmap; lia).
      rewrite lookup_app_r by (rewrite !length_fmap; lia).
      rewrite !length_fmap.
      replace (2 * length monthly + i - length monthly - length monthly)%nat with i by lia.
      by rewrite list_lookup_fmap, Hm.
  - intros l. rewrite !elem_of_app, !list_elem_of_fmap.
    intros [(m & -> & Hm) | [(m & -> & Hm) | (m & -> & Hm)]]; exists m; simpl;
      (split; [done |]); (split; [done |]); auto.
Qed.

(** ** The forecast table, once more *)

(** For [n ≥ 0] the table shown has [min n (length forecast)] rows, and
    taking the tail of a tail is taking the shorter tail; in particular
    [tail] is idempotent. *)
Theorem tail_tail (forecast : list ForecastRow) (n k : Z) :
  0 ≤ k ≤ n →
  length (tail forecast n) = (Z.to_nat n `min` length forecast)%nat ∧
  tail (tail forecast n) k = tail forecast k.
Proof.
  intros Hk. unfold tail. rewrite !tail_drop by lia. split.
  - rewrite length_drop. lia.
  - rewrite drop_drop, length_drop. f_equal. lia.
Qed.

Lemma tail_tail_witness :
  tail (tail sample_forecast 5) 2 = tail sample_forecast 2.
Proof. apply (tail_tail sample_forecast 5 2). lia. Defined.

Lemma filter_by_year_again_witness :
  rows (filter_by_year (filter_by_year sample_df 2024) 2023) = [].
Proof. apply (filter_by_year_again sample_df 2024 2023). lia. Defined.

Lemma melt_layout_witness :
  melt (monthly_trend sample_df) !! 2%nat
  = Some (mkMelted (mkTimestamp 2024 1 1) "Profit" 5).
Proof.
  destruct (melt_layout (monthly_trend sample_df)) as (_ & Hat & _).
  apply (Hat 0%nat (mkMonthly (mkTimestamp 2024 1 1) 150 5 (1 # 4))). reflexivity.
Defined.

(** ** Rounding to two decimals *)

Lemma rint_mono (x y : Q) : (x <= y)%Q → pd.rint x ≤ pd.rint y.
Proof.
  intros Hxy.
  pose proof (Qfloor_resp_le x y Hxy) as Hf.
  pose proof (Qfloor_le x) as Hxlo. pose proof (Qlt_floor x) as Hxhi.
  pose proof (Qfloor_le y) as Hylo. pose proof (Qlt_floor y) as Hyhi.
  rewrite inject_Z_plus in Hxhi, Hyhi. change (inject_Z 1) with 1%Q in *.
  unfold pd.rint.
  destruct (Z.eq_dec (Qfloor x) (Qfloor y)) as [Heq | Hne].
  - rewrite <- Heq in *.
    destruct (x - inject_Z (Qfloor x) ?= 1 # 2)%Q eqn:Hcx;
      destruct (y - inject_Z (Qfloor x) ?= 1 # 2)%Q eqn:Hcy;
      try (destruct (Z.even (Qfloor x))); try lia; exfalso;
      repeat match goal with
             | H : (_ ?= _)%Q = Eq |- _ => apply Qeq_alt in H
             | H : (_ ?= _)%Q = Lt |- _ => apply Qlt_alt in H
             | H : (_ ?= _)%Q = Gt |- _ => apply Qgt_alt in H
             end; lra.
  - assert (Qfloor x + 1 ≤ Qfloor y) by lia.
    destruct (x - inject_Z (Qfloor x) ?= 1 # 2)%Q;
      destruct (y - inject_Z (Qfloor y) ?= 1 # 2)%Q;
      try (destruct (Z.even (Qfloor x))); try (destruct (Z.even (Qfloor y))); lia.
Qed.

(** ** Means *)

(** A metric of a cluster summary is missing exactly when no row of the
    cluster has a value for it. When the values of the cluster add up
    without rounding, the metric is their arithmetic mean, rounded to a
    double and passed through [round(2)]. Stated for sales; the other
    metrics are computed by the same expression. *)
Theorem summary_Sales_range (cluster_df : list ClusterTable.Row)
    (s : Summary.Row) (lbl : option string) :
  (s, lbl) ∈ summarize cluster_df →
  let cells :=
    omap ClusterTable.Sales
      (filter (λ r, ClusterTable.Cluster r = Some (Summary.Cluster s)) cluster_df) in
  (Summary.Sales s = None ↔
     ∀ r, r ∈ cluster_df → ClusterTable.Cluster r = Some (Summary.Cluster s) →
          ClusterTable.Sales r = None) ∧
  (exact_cells cells →
     Summary.Sales s = (λ m, pd.round2 (pd.round64 m)) <$> arith_mean cells).
Proof.
  intros (c & _ & -> & ->)%elem_of_summarize. simpl.
  set (g := filter (λ r, ClusterTable.Cluster r = Some c) cluster_df).
  split.
  - rewrite fmap_None, group_mean_None, dropna_fmap. split.
    + intros Hnil r Hr Hc. destruct (ClusterTable.Sales r) as [x |] eqn:Hx; [| done].
      assert (x ∈ omap ClusterTable.Sales g) as Hin.
      { apply list_elem_of_omap. exists r. split; [| done].
        by apply list_elem_of_filter. }
      rewrite Hnil in Hin. by apply elem_of_nil in Hin.
    + intros Hnone. destruct (omap ClusterTable.Sales g) as [| x l] eqn:Hg; [done |].
      assert (x ∈ omap ClusterTable.Sales g) as Hin by (rewrite Hg; left).
      apply list_elem_of_omap in Hin as (r & [Hc Hr]%list_elem_of_filter & Hx).
      by rewrite (Hnone r Hr Hc) in Hx.
  - intros He. rewrite group_mean_exact by (by rewrite dropna_fmap).
    rewrite dropna_fmap. by destruct (arith_mean (omap ClusterTable.Sales g)).
Qed.

Lemma summary_Sales_range_witness :
  Some (pd.round64 (38 # 100))
  = (λ m, pd.round2 (pd.round64 m)) <$> arith_mean [(1 # 4)%Q; (1 # 2)%Q].
Proof.
  destruct (summary_Sales_range sample_clusters
              (Summary.mkRow 4 (Some (pd.round64 (38 # 100))) (Some 1%Q)
                 (Some (pd.round64 (19 # 100))) (Some (7 # 2)%Q)) None) as [_ Hmean].
  - apply (list_elem_of_lookup_2 _ 1%nat). by vm_compute.
  - apply Hmean. exists (-2). split; [lia |]. split; [| by vm_compute].
    repeat constructor; [by exists 1 | by exists 2].
Defined.

(** ** Cluster labels *)

Lemma cluster_labels_Some (c : Z) : is_Some (cluster_labels !! c) ↔ 0 ≤ c ≤ 3.
Proof.
  unfold cluster_labels.
  rewrite !lookup_insert_is_Some, lookup_singleton_is_Some. lia.
Qed.

(** A row of the cluster summary has a label exactly when its cluster id is
    0, 1, 2 or 3, and two rows with the same label have the same id. *)
Theorem summarize_labels (cluster_df : list ClusterTable.Row) :
  (∀ s lbl, (s, lbl) ∈ summarize cluster_df →
     (is_Some lbl ↔ 0 ≤ Summary.Cluster s ≤ 3)) ∧
  (∀ s1 s2 lbl, (s1, Some lbl) ∈ summarize cluster_df →
     (s2, Some lbl) ∈ summarize cluster_df → s1 = s2).
Proof.
  split.
  - intros s lbl (c & _ & -> & ->)%elem_of_summarize. simpl. apply cluster_labels_Some.
  - intros s1 s2 lbl (c1 & _ & -> & H1)%elem_of_summarize
      (c2 & _ & -> & H2)%elem_of_summarize.
    assert (c1 = c2) as ->; [| done].
    assert (0 ≤ c1 ≤ 3) as Hc1 by (apply cluster_labels_Some; by rewrite <- H1).
    assert (0 ≤ c2 ≤ 3) as Hc2 by (apply cluster_labels_Some; by rewrite <- H2).
    assert (c1 = 0 ∨ c1 = 1 ∨ c1 = 2 ∨ c1 = 3) as Hd1 by lia.
    assert (c2 = 0 ∨ c2 = 1 ∨ c2 = 2 ∨ c2 = 3) as Hd2 by lia.
    destruct Hd1 as [-> | [-> | [-> | ->]]], Hd2 as [-> | [-> | [-> | ->]]];
      try done; vm_compute in H1, H2; congruence.
Qed.

Lemma summarize_labels_witness :
  is_Some (Some "🧾 Regular Customers" : option string) ↔ 0 ≤ 0 ≤ 3.
Proof.
  destruct (summarize_labels sample_clusters) as [Hlabel _].
  apply (Hlabel (Summary.mkRow 0 (Some (1 # 4)%Q) (Some 1%Q)
                   (Some (pd.round64 (12 # 100))) (Some 3%Q))).
  apply (list_elem_of_lookup_2 _ 0%nat). by vm_compute.
Defined.

(** ** The cache across runs *)





(** ** The metric tiles *)

Lemma group3_ind (P : list ascii → Prop) :
  (∀ ds, (length ds ≤ 3)%nat → P ds) →
  (∀ a b c d rest, P (d :: rest) → P (a :: b :: c :: d :: rest)) →
  ∀ ds, P ds.
Proof.
  intros Hshort Hstep ds.
  remember (length ds) as n eqn:Hn. revert ds Hn.
  induction n as [n IH] using lt_wf_ind. intros ds ->.
  destruct ds as [| a [| b [| c [| d rest]]]]; try (apply Hshort; simpl; lia).
  apply Hstep. apply (IH (length (d :: rest))); [simpl; lia | done].
Qed.

Lemma group3_rev_short (ds : list ascii) : (length ds ≤ 3)%nat → group3_rev ds = ds.
Proof. destruct ds as [| a [| b [| c [| d rest]]]]; simpl; [done .. | lia]. Qed.

Lemma filter_group3_rev (ds : list ascii) :
  filter (λ c, c ≠ ","%char) (group3_rev ds) = filter (λ c, c ≠ ","%char) ds.
Proof.
  induction ds as [ds Hshort | a b c d rest IH] using group3_ind.
  - by rewrite group3_rev_short.
  - change (group3_rev (a :: b :: c :: d :: rest))
      with (a :: b :: c :: ","%char :: group3_rev (d :: rest)).
    rewrite !(filter_cons _ a), !(filter_cons _ b), !(filter_cons _ c).
    rewrite (filter_cons _ ","%char), IH.
    by destruct (decide (","%char ≠ ","%char)).
Qed.

Lemma digits_no_comma (n : N) : Forall (λ c, c ≠ ","%char) (digits n).
Proof.
  unfold digits, NilZero.string_of_uint.
  assert (∀ d, Forall (λ c, c ≠ ","%char)
                 (String.list_ascii_of_string (NilEmpty.string_of_uint d))) as Hd
    by (induction d; simpl; constructor; done).
  destruct (N.to_uint n); try apply Hd. by repeat constructor.
Qed.

Lemma filter_all {A} (P : A → Prop) `{∀ x, Decision (P x)} (l : list A) :
  Forall P l → filter P l = l.
Proof.
  induction 1 as [| x l Hx _ IH]; [done |]. by rewrite filter_cons, decide_True, IH.
Qed.

Lemma to_uint_nonnil (m : N) : N.to_uint m ≠ Decimal.Nil.
Proof. destruct m; [done | apply DecimalPos.Unsigned.to_uint_nonnil]. Qed.

(** Reading back a sign followed by grouped digits. *)
Lemma read_signed (neg : bool) (m : N) :
  read_int (String.string_of_list_ascii
              ((if neg then ["-"%char] else []) ++ group3 (digits m)))
  = Some (if neg then - Z.of_N m else Z.of_N m).
Proof.
  unfold read_int, without_commas.
  rewrite String.list_ascii_of_string_of_list_ascii, filter_app.
  unfold group3. rewrite filter_reverse, filter_group3_rev, <- filter_reverse,
    reverse_involutive, (filter_all _ (digits m)) by apply digits_no_comma.
  assert (Z.of_uint (N.to_uint m) = Z.of_N m) as Hm.
  { unfold Z.of_uint. f_equal. apply DecimalN.Unsigned.of_to. }
  unfold digits. destruct neg.
  - change (String.string_of_list_ascii (filter _ ["-"%char] ++ ?l))
      with (String.String "-" (String.string_of_list_ascii l)).
    rewrite String.string_of_list_ascii_of_string.
    change (String.String "-" (NilZero.string_of_uint (N.to_uint m)))
      with (NilZero.string_of_int (Decimal.Neg (N.to_uint m))).
    rewrite NilZero.isi; [simpl; by rewrite Hm | done |].
    intros [= Hnil]. by apply to_uint_nonnil in Hnil.
  - change (filter _ [] ++ ?l) with l.
    rewrite String.string_of_list_ascii_of_string.
    change (NilZero.string_of_uint (N.to_uint m))
      with (NilZero.string_of_int (Decimal.Pos (N.to_uint m))).
    rewrite NilZero.isi; [simpl; by rewrite Hm | | done].
    intros [= Hnil]. by apply to_uint_nonnil in Hnil.
Qed.

Lemma read_format_int (n : Z) : read_int (format_int n) = Some n.
Proof.
  unfold format_int. rewrite (read_signed (n <? 0) (Z.abs_N n)), N2Z.inj_abs_N.
  f_equal. destruct (Z.ltb_spec n 0); lia.
Qed.

Lemma read_format_f0 (x : Q) : read_int (format_f0 x) = Some (pd.rint x).
Proof.
  unfold format_f0.
  destruct (Qlt_le_dec x 0) as [Hneg | Hpos].
  - rewrite (read_signed true), N2Z.inj_abs_N. f_equal.
    assert (pd.rint x ≤ pd.rint (inject_Z 0)) as Hr
      by (apply rint_mono; change (inject_Z 0) with 0%Q; lra).
    rewrite rint_inject_Z in Hr. lia.
  - rewrite (read_signed false), N2Z.inj_abs_N. f_equal.
    assert (pd.rint (inject_Z 0) ≤ pd.rint x) as Hr
      by (apply rint_mono; change (inject_Z 0) with 0%Q; lra).
    rewrite rint_inject_Z in Hr. lia.
Qed.

(** The tiles of the Overview page can be read back: without the commas
    (and the dollar sign) the order tile gives the exact number of orders,
    the quantity tile of a frame without missing quantities the exact total
    quantity, and the sales and profit tiles the totals rounded to the
    nearest integer, off by at most one half. *)
Theorem overview_metrics_read_back (df : DataFrame) :
  let k := kpis df in
  let tiles := overview_metrics k in
  read_int (metric_orders tiles) = Some (Z.of_nat (total_orders k)) ∧
  (Forall (λ r, is_Some (Quantity r)) (rows df) →
     read_int (metric_quantity tiles) = Some (total_quantity k)) ∧
  (∃ s, read_int (after_dollar (metric_sales tiles)) = Some s ∧
        (total_sales k - (1 # 2) <= inject_Z s)%Q ∧
        (inject_Z s <= total_sales k + (1 # 2))%Q) ∧
  (∃ p, read_int (after_dollar (metric_profit tiles)) = Some p ∧
        (total_profit k - (1 # 2) <= inject_Z p)%Q ∧
        (inject_Z p <= total_profit k + (1 # 2))%Q).
Proof.
  cbv zeta. generalize (kpis df). intros k. unfold overview_metrics. simpl.
  rewrite !read_format_int. split; [done |]. split; [done |]. split.
  - exists (pd.rint (total_sales k)). split; [apply read_format_f0 | apply rint_near].
  - exists (pd.rint (total_profit k)). split; [apply read_format_f0 | apply rint_near].
Qed.

Lemma overview_metrics_read_back_witness :
  read_int (metric_quantity (overview_metrics (kpis sample_df)))
  = Some (total_quantity (kpis sample_df)).
Proof.
  apply (overview_metrics_read_back sample_df).
  unfold sample_df. simpl. repeat (constructor; [by eexists |]). constructor.
Defined.

Lemma group3_rev_commas (ds : list ascii) :
  Forall (λ c, c ≠ ","%char) ds →
  ∀ i, group3_rev ds !! i = Some ","%char ↔
       ∃ k, i = (4 * k + 3)%nat ∧ (i < length (group3_rev ds))%nat.
Proof.
  induction ds as [ds Hshort | a b c d rest IH] using group3_ind; intros Hds i.
  - rewrite group3_rev_short by done. split.
    + intros Hi. exfalso. rewrite Forall_forall in Hds.
      apply (Hds ","%char); [by eapply list_elem_of_lookup_2 | done].
    + intros (k & -> & Hk). lia.
  - change (group3_rev (a :: b :: c :: d :: rest))
      with (a :: b :: c :: ","%char :: group3_rev (d :: rest)).
    apply Forall_cons in Hds as [Ha Hds]. apply Forall_cons in Hds as [Hb Hds].
    apply Forall_cons in Hds as [Hc Hds]. specialize (IH Hds).
    generalize dependent (group3_rev (d :: rest)). intros g IH.
    destruct i as [| [| [| [| i]]]]; simpl.
    + split; [intros [= ->]; done | intros (k & Hk & _); lia].
    + split; [intros [= ->]; done | intros (k & Hk & _); lia].
    + split; [intros [= ->]; done | intros (k & Hk & _); lia].
    + split; [intros _; exists 0%nat; lia | done].
    + rewrite (IH i). split.
      * intros (k & -> & Hk). exists (S k). lia.
      * intros (k & Hk & Hlen). destruct k as [| k]; [lia |]. exists k. lia.
Qed.

(** The thousands separators of a non-negative count: read from the right,
    the tile has a comma at every fourth place and nowhere else. *)
Theorem format_int_grouping (n : Z) (i : nat) :
  0 ≤ n →
  let tile := reverse (String.list_ascii_of_string (format_int n)) in
  tile !! i = Some ","%char ↔ ∃ k, i = (4 * k + 3)%nat ∧ (i < length tile)%nat.
Proof.
  intros Hn. cbv zeta. unfold format_int.
  destruct (Z.ltb_spec n 0); [lia |].
  rewrite String.list_ascii_of_string_of_list_ascii. simpl.
  unfold group3. rewrite reverse_involutive.
  apply group3_rev_commas, Forall_reverse, digits_no_comma.
Qed.

Lemma format_int_grouping_witness :
  reverse (String.list_ascii_of_string (format_int 1234567)) !! 3%nat = Some ","%char.
Proof.
  apply (format_int_grouping 1234567 3); [lia |].
  exists 0%nat. split; [reflexivity |]. vm_compute. lia.
Defined.
